(** * Kiri: the document-to-artifact generation pipeline

    A shallow embedding of the core of [Kiri.py]: the text segmenter
    ([PDFManagerApp.split_text_into_chunks]) and the summarisation worker
    ([SummarizationWorker]: prompt table, single-unit path, bounded fan-out
    over chunks, join of the partial results).

    Python strings are sequences of Unicode code points: a character is the
    number of its code point, a string is a list of characters. *)

From Stdlib Require Import ZArith NArith Lia Bool Ascii String DecimalString.
From Stdlib Require Import List Permutation.
From Stdlib Require PrimFloat SpecFloat FloatOps Uint63.
Import ListNotations.

Set Implicit Arguments.
Set Warnings "-inexact-float".

(** ** Strings *)

Module Str.

Definition char := N.
Definition str := list char.

(** A literal of the source, written as a Rocq string: one code point per
    character (the literals of the source are ASCII). *)
Definition lit (s : string) : str := map N_of_ascii (list_ascii_of_string s).

Definition len (s : str) : Z := Z.of_nat (length s).

Definition space : char := 32%N.
Definition dot : char := 46%N.
Definition LF : char := 10%N.
Definition CR : char := 13%N.

Definition eqb (a b : str) : bool :=
  if list_eq_dec N.eq_dec a b then true else false.

(** [str.isspace] of one character, as CPython's [_PyUnicode_IsWhitespace]
    lists them. *)
Definition isspace (c : char) : bool :=
  (((9 <=? c) && (c <=? 13)) || ((28 <=? c) && (c <=? 32))
   || (c =? 133) || (c =? 160) || (c =? 5760)
   || ((8192 <=? c) && (c <=? 8202))
   || (c =? 8232) || (c =? 8233) || (c =? 8239) || (c =? 8287)
   || (c =? 12288))%N.

(** [s.replace(old, new)] for one-character [old] and [new]. *)
Definition replace (old new : char) (s : str) : str :=
  map (fun c => if (c =? old)%N then new else c) s.

Fixpoint lstrip (s : str) : str :=
  match s with
  | c :: s' => if isspace c then lstrip s' else s
  | [] => []
  end.

Definition rstrip (s : str) : str := rev (lstrip (rev s)).

(** [s.strip()]: leading and trailing whitespace removed. *)
Definition strip (s : str) : str := lstrip (rstrip s).

Fixpoint starts_with (p s : str) : bool :=
  match p, s with
  | [], _ => true
  | a :: p', b :: s' => (a =? b)%N && starts_with p' s'
  | _ :: _, [] => false
  end.

(** [s.split(sep)] for a non-empty [sep]: the pieces between the leftmost
    non-overlapping occurrences of [sep].  [skip] counts the characters of
    an occurrence still to be passed over. *)
Fixpoint split_from (sep : str) (skip : nat) (s : str) : list str :=
  match s with
  | [] => [[]]
  | c :: s' =>
      match skip with
      | S k => split_from sep k s'
      | O =>
          if starts_with sep s
          then [] :: split_from sep (Nat.pred (length sep)) s'
          else match split_from sep 0 s' with
               | p :: ps => (c :: p) :: ps
               | [] => [[c]]
               end
      end
  end.

Definition split (sep s : str) : list str := split_from sep 0 s.

(** [sep.join(parts)] *)
Fixpoint join (sep : str) (parts : list str) : str :=
  match parts with
  | [] => []
  | [p] => p
  | p :: ps => p ++ sep ++ join sep ps
  end.

(** Truth value of a string: non-empty. *)
Definition truthy (s : str) : bool :=
  match s with [] => false | _ :: _ => true end.

(** [str(n)] for a non-negative integer. *)
Definition of_nat (n : nat) : str :=
  lit (DecimalString.NilZero.string_of_uint (Nat.to_uint n)).

End Str.

Import Str.

(** ** The segmenter: [PDFManagerApp.split_text_into_chunks] *)

Module Segmenter.

(** [if current_chunk.strip(): chunks.append(current_chunk.strip())] *)
Definition flush (chunks : list str) (current_chunk : str) : list str :=
  if truthy (strip current_chunk)
  then chunks ++ [strip current_chunk]
  else chunks.

(** Body of the inner loop [for word in words]. *)
Definition word_step (max_chunk_size : Z) (st : list str * str) (word : str)
  : list str * str :=
  let '(chunks, current_chunk) := st in
  if (len current_chunk + len word + 1 <=? max_chunk_size)%Z
  then (chunks, current_chunk ++ word ++ [space])
  else (flush chunks current_chunk, word ++ [space]).

(** Body of the outer loop [for sentence in sentences]. *)
Definition sentence_step (max_chunk_size : Z) (st : list str * str)
  (sentence : str) : list str * str :=
  let '(chunks, current_chunk) := st in
  let sentence_with_period := sentence ++ [dot; space] in
  let test_chunk := current_chunk ++ sentence_with_period in
  if (len test_chunk <=? max_chunk_size)%Z
  then (chunks, test_chunk)
  else
    let chunks := flush chunks current_chunk in
    if (len sentence_with_period <=? max_chunk_size)%Z
    then (chunks, sentence_with_period)
    else
      let words := split [space] sentence_with_period in
      let '(chunks, current_chunk) :=
        fold_left (word_step max_chunk_size) words (chunks, []) in
      (flush chunks current_chunk, []).

(** [text.replace('\n', ' ').replace('\r', ' ')] *)
Definition normalize_breaks (text : str) : str :=
  replace CR space (replace LF space text).

(** [[s.strip() for s in text.split('. ') if s.strip()]] *)
Definition sentences_of (text : str) : list str :=
  map strip (filter (fun s => truthy (strip s)) (split [dot; space] text)).

Definition split_text_into_chunks (text : str) (max_chunk_size : Z)
  : list str :=
  let text := normalize_breaks text in
  let sentences := sentences_of text in
  let '(chunks, current_chunk) :=
    fold_left (sentence_step max_chunk_size) sentences ([], []) in
  flush chunks current_chunk.

End Segmenter.

Import Segmenter.

(** ** Whitespace normalisation, for the round-trip statements *)

Module Whitespace.

(** All whitespace deleted: the sequence of non-whitespace characters. *)
Definition remove_ws (s : str) : str := filter (fun c => negb (isspace c)) s.

(** [s.split()]: the maximal runs of non-whitespace characters. [cur] is
    the run being read, reversed. *)
Fixpoint words_from (cur : str) (s : str) : list str :=
  match s with
  | [] => if truthy cur then [rev cur] else []
  | c :: s' =>
      if isspace c
      then (if truthy cur then rev cur :: words_from [] s'
            else words_from [] s')
      else words_from (c :: cur) s'
  end.

(** [" ".join(s.split())]: runs of whitespace collapsed to one space, ends
    trimmed. *)
Definition collapse_ws (s : str) : str := join [space] (words_from [] s).

End Whitespace.

Import Whitespace.

(** ** The float literals of the source *)

Module Lit.
Import PrimFloat.
Definition f0_4 : float := 0.4%float.
Definition f0_7 : float := 0.7%float.
Definition f0_9 : float := 0.9%float.
Definition f100 : float := 100%float.
End Lit.

(** ** The worker: [SummarizationWorker] *)

Module Worker.

(** Code that may raise: a value, or the message [str(e)] of the exception
    raised. *)
Inductive exc (A : Type) : Type :=
| Ok (a : A)
| Raise (msg : str).
Arguments Ok {A} a.
Arguments Raise {A} msg.

Definition bind {A B : Type} (m : exc A) (k : A -> exc B) : exc B :=
  match m with
  | Ok a => k a
  | Raise e => Raise e
  end.

Notation "x <- m ;; k" := (bind m (fun x => k))
  (at level 61, m at next level, right associativity).

(** [text_data] is the full text (a [str]), a list of chunks, or any other
    object. *)
Inductive text_data_t : Type :=
| TextStr (s : str)
| TextList (chunks : list str)
| TextOther.

Record worker : Type := {
  text_data : text_data_t;
  model : str;
  prompt_type : str;
  custom_prompt : str;
  answer_length : str;
  is_chunked : bool
}.

(** The three signals of the worker. *)
Inductive signal : Type :=
| progress (value : Z)
| output (message : str)
| finished_signal (result : str).

(** One call of [client.chat]: the system and user messages and the
    sampling options. *)
Record request : Type := {
  req_model : str;
  system_content : str;
  user_content : text_data_t;
  temperature : PrimFloat.float;
  top_p : PrimFloat.float
}.

(** What [(await client.chat(...))['message']['content']] comes to: the
    content, or an exception. *)
Definition reply : Type := exc str.

(** *** The prompt table *)

Definition summary_prompt : str :=
  lit "You are an expert note-taking assistant specializing in creating structured, "
  ++ lit "detailed summaries. Create a comprehensive summary of the provided text. "
  ++ lit "Focus on key facts, important concepts, and critical takeaways. "
  ++ lit "Organize information logically with clear sections and paragraphs. "
  ++ lit "Do not use markdown or special formatting in your response.".

Definition brief_prompt : str :=
  lit "Create a concise brief overview of the following text. "
  ++ lit "Focus on the most important concepts and key takeaways. "
  ++ lit "Use a clear paragraph structure.".

Definition qna_prompt : str :=
  lit "Generate 5 important questions and detailed answers based on the following text. "
  ++ lit "Format each pair clearly as:" ++ [LF]
  ++ lit "Q: [Question]" ++ [LF]
  ++ lit "A: [Detailed answer]" ++ [LF]
  ++ lit "Separate each pair with a blank line.".

Definition questions_prompt : str :=
  lit "Create 10 practice questions based on the following text. "
  ++ lit "Include a mix of multiple choice, short answer, and discussion questions. "
  ++ lit "Number each question clearly.".

Definition professor_prompt : str :=
  lit "You are a helpful professor assistant. Answer questions about the provided text "
  ++ lit "in a clear, educational manner. Provide detailed explanations and examples where appropriate.".

(** A [dict] with string keys, in insertion order. *)
Definition dict : Type := list (str * str).

Fixpoint lookup (d : dict) (key : str) : option str :=
  match d with
  | [] => None
  | (k, v) :: d' => if Str.eqb k key then Some v else lookup d' key
  end.

(** [d[key]] *)
Definition getitem (d : dict) (key : str) : exc str :=
  match lookup d key with
  | Some v => Ok v
  | None => Raise (lit "'" ++ key ++ lit "'")
  end.

(** [d.get(key, default)] *)
Definition get (d : dict) (key default : str) : str :=
  match lookup d key with
  | Some v => v
  | None => default
  end.

(** [self.prompts], as [__init__] builds it. *)
Definition prompts (self : worker) : dict :=
  [ (lit "summary", summary_prompt);
    (lit "brief", brief_prompt);
    (lit "qna", qna_prompt);
    (lit "questions", questions_prompt);
    (lit "professor",
      if truthy (custom_prompt self) then custom_prompt self
      else professor_prompt) ].

(** [base_prompt = self.prompts.get(self.prompt_type, self.prompts["summary"])] *)
Definition base_prompt (self : worker) : exc str :=
  default <- getitem (prompts self) (lit "summary") ;;
  Ok (get (prompts self) (prompt_type self) default).

(** The statements that build [prompt], the same in [process_full_text] and
    in [process_chunk]. *)
Definition build_prompt (self : worker) : exc str :=
  base <- base_prompt self ;;
  if truthy (answer_length self) && Str.eqb (prompt_type self) (lit "professor")
  then
    let length_prompt := lit "Answer length: " ++ answer_length self ++ lit ". " in
    Ok (length_prompt ++ base)
  else Ok base.

(** [0.4 if self.prompt_type in ["summary", "brief"] else 0.7] *)
Definition temperature_of (self : worker) : PrimFloat.float :=
  if existsb (Str.eqb (prompt_type self)) [lit "summary"; lit "brief"]
  then Lit.f0_4 else Lit.f0_7.

(** The arguments of [client.chat]. *)
Definition chat_request (self : worker) (prompt : str) (content : text_data_t)
  : request :=
  {| req_model := model self;
     system_content := prompt;
     user_content := content;
     temperature := temperature_of self;
     top_p := Lit.f0_9 |}.

(** *** Numbers *)

(** [a / b] on integers: the quotient as a float (integers below [2^53]
    convert exactly). *)
Definition truediv (a b : Z) : PrimFloat.float :=
  PrimFloat.div (PrimFloat.of_uint63 (Uint63.of_Z a))
                (PrimFloat.of_uint63 (Uint63.of_Z b)).

(** [int(x)]: truncation towards zero of a finite float. *)
Definition int_of_float (x : PrimFloat.float) : Z :=
  match FloatOps.Prim2SF x with
  | SpecFloat.S754_finite s m e =>
      let magnitude :=
        if (0 <=? e)%Z then Z.shiftl (Zpos m) e else Z.shiftr (Zpos m) (- e) in
      if s then (- magnitude)%Z else magnitude
  | _ => 0%Z
  end.

(** [int((index + 1) / len(chunks) * 100)] *)
Definition progress_value (index total : nat) : Z :=
  int_of_float
    (PrimFloat.mul (truediv (Z.of_nat index + 1) (Z.of_nat total)) Lit.f100).

(** *** What a run leaves behind *)

(** The requests sent, the signals emitted (oldest first) and
    [self.result]. *)
Record effects : Type := {
  result : str;
  emitted : list signal;
  sent : list request
}.

(** *** [process_full_text]

    The whole body stands in [try: ... except Exception as e:]; [handler]
    is the [except] block, reached from the statement that raised with the
    requests sent until then. *)

Definition process_full_text (self : worker) (text : text_data_t)
  (answer : reply) : effects :=
  let emitted0 := [output (lit "Sending full text to model...")] in
  let handler (sent0 : list request) (e : str) : effects :=
    let error_msg := lit "[ERROR] Failed to process text: " ++ e in
    {| result := error_msg;
       emitted := emitted0 ++ [output error_msg];
       sent := sent0 |} in
  match build_prompt self with
  | Raise e => handler [] e
  | Ok prompt =>
      let req := chat_request self prompt text in
      match answer with
      | Raise e => handler [req] e
      | Ok content =>
          {| result := content;
             emitted := emitted0 ++ [progress 100;
                                    output (lit "Processing complete.")];
             sent := [req] |}
      end
  end.

(** *** [process_chunks]

    The tasks made by [asyncio.gather] run on one event loop; a task gives
    up control at [async with semaphore] when no slot is free and at
    [await self.client.chat(...)].  The state holds what the tasks share;
    an event is one task running from one such point to the next. *)

Record state : Type := {
  queue : list nat;        (* indices waiting for a slot, in arrival order *)
  in_flight : list nat;    (* indices awaiting the reply of their call *)
  semaphore : nat;         (* free slots *)
  summaries : list str;
  signals : list signal;
  requests : list request
}.

Inductive event : Type :=
| Enter                    (* the first waiting task takes a slot *)
| Answer (index : nat).    (* the call of task [index] returns or raises *)

Definition start (chunks : list text_data_t) : state :=
  {| queue := seq 0 (length chunks);
     in_flight := [];
     semaphore := 2;
     summaries := [];
     signals := [output (lit "Split into " ++ Str.of_nat (length chunks)
                         ++ lit " chunks for processing...")];
     requests := [] |}.

Definition emit (s : signal) (st : state) : state :=
  {| queue := queue st; in_flight := in_flight st;
     semaphore := semaphore st; summaries := summaries st;
     signals := signals st ++ [s]; requests := requests st |}.

Definition append_summary (x : str) (st : state) : state :=
  {| queue := queue st; in_flight := in_flight st;
     semaphore := semaphore st; summaries := summaries st ++ [x];
     signals := signals st; requests := requests st |}.

(** Leaving the [async with] block. *)
Definition release (st : state) : state :=
  {| queue := queue st; in_flight := in_flight st;
     semaphore := S (semaphore st); summaries := summaries st;
     signals := signals st; requests := requests st |}.

Definition send (index : nat) (req : request) (st : state) : state :=
  {| queue := queue st; in_flight := in_flight st ++ [index];
     semaphore := semaphore st; summaries := summaries st;
     signals := signals st; requests := requests st ++ [req] |}.

(** [f"[ERROR] Processing chunk {index+1}: {str(e)}"] *)
Definition chunk_error_msg (index : nat) (e : str) : str :=
  lit "[ERROR] Processing chunk " ++ Str.of_nat (index + 1) ++ lit ": " ++ e.

(** The [except Exception as e] block of [process_chunk]. *)
Definition on_exception (index : nat) (e : str) (st : state) : state :=
  let error_msg := chunk_error_msg index e in
  append_summary error_msg (emit (output error_msg) st).

(** The first occurrence of [x] taken out of [l]. *)
Fixpoint take_out (x : nat) (l : list nat) : option (list nat) :=
  match l with
  | [] => None
  | y :: l' =>
      if Nat.eqb x y then Some l'
      else match take_out x l' with
           | Some r => Some (y :: r)
           | None => None
           end
  end.

(** [process_chunk] from the slot to the call. *)
Definition enter (self : worker) (chunks : list text_data_t) (st : state)
  : option state :=
  match queue st, semaphore st with
  | index :: waiting, S free =>
      match nth_error chunks index with
      | Some chunk =>
          let st :=
            {| queue := waiting; in_flight := in_flight st;
               semaphore := free; summaries := summaries st;
               signals := signals st; requests := requests st |} in
          let st :=
            emit (output (lit "Processing chunk " ++ Str.of_nat (index + 1)
                          ++ lit "/" ++ Str.of_nat (length chunks)
                          ++ lit "...")) st in
          match build_prompt self with
          | Ok prompt => Some (send index (chat_request self prompt chunk) st)
          | Raise e => Some (release (on_exception index e st))
          end
      | None => None
      end
  | _, _ => None
  end.

(** [process_chunk] from the reply of the call to its end. *)
Definition answer (chunks : list text_data_t) (replies : nat -> reply)
  (index : nat) (st : state) : option state :=
  match take_out index (in_flight st) with
  | Some others =>
      let st :=
        {| queue := queue st; in_flight := others;
           semaphore := semaphore st; summaries := summaries st;
           signals := signals st; requests := requests st |} in
      Some (release
              (match replies index with
               | Ok summary =>
                   emit (progress (progress_value index (length chunks)))
                     (append_summary summary st)
               | Raise e => on_exception index e st
               end))
  | None => None
  end.

Definition step (self : worker) (chunks : list text_data_t)
  (replies : nat -> reply) (ev : event) (st : state) : option state :=
  match ev with
  | Enter => enter self chunks st
  | Answer index => answer chunks replies index st
  end.

Fixpoint exec (self : worker) (chunks : list text_data_t)
  (replies : nat -> reply) (schedule : list event) (st : state)
  : option state :=
  match schedule with
  | [] => Some st
  | ev :: schedule' =>
      match step self chunks replies ev st with
      | Some st' => exec self chunks replies schedule' st'
      | None => None
      end
  end.

(** [asyncio.gather] returns once every task has ended. *)
Definition gathered (st : state) : bool :=
  match queue st, in_flight st with
  | [], [] => true
  | _, _ => false
  end.

Definition section_break : str :=
  [LF; LF] ++ lit "--- SECTION BREAK ---" ++ [LF; LF].

(** The [# Combine results] statement. *)
Definition combine (self : worker) (summaries : list str) : str :=
  if Str.eqb (prompt_type self) (lit "summary")
  then join section_break summaries
  else join [LF; LF] summaries.

(** [process_chunks] under a schedule of the event loop: [None] when the
    schedule names an event that cannot happen or stops before every task
    has ended. *)
Definition process_chunks (self : worker) (chunks : list text_data_t)
  (replies : nat -> reply) (schedule : list event) : option effects :=
  match exec self chunks replies schedule (start chunks) with
  | Some st =>
      if gathered st
      then Some {| result := combine self (summaries st);
                   emitted := signals st;
                   sent := requests st |}
      else None
  | None => None
  end.

(** *** [run] *)

Definition finish (fx : effects) : effects :=
  {| result := result fx;
     emitted := emitted fx ++ [finished_signal (result fx)];
     sent := sent fx |}.

Definition fatal (e : str) : effects :=
  {| result := lit "[FATAL ERROR] " ++ e; emitted := []; sent := [] |}.

Definition run (self : worker) (replies : nat -> reply)
  (schedule : list event) : option effects :=
  match text_data self, is_chunked self with
  | TextStr _, false =>
      Some (finish (process_full_text self (text_data self) (replies 0%nat)))
  | TextList chunks, _ =>
      option_map finish
        (process_chunks self (map TextStr chunks) replies schedule)
  | _, true =>
      option_map finish
        (process_chunks self [text_data self] replies schedule)
  | TextOther, false =>
      Some (finish (fatal (lit "Invalid text_data type for processing")))
  end.

End Worker.

Import Worker.

(** ** Notions used in the statements *)

(** *** The segmenter *)

(** A chunk is within the ceiling, or holds no space (one word). *)
Definition fits (max_chunk_size : Z) (c : str) : Prop :=
  (len c <= max_chunk_size)%Z \/ ~ In space c.

(** What the loops keep true of [current_chunk]. *)
Definition current_ok (max_chunk_size : Z) (cur : str) : Prop :=
  (len cur <= max_chunk_size)%Z \/ ~ In space (strip cur).

Definition loop_inv (max_chunk_size : Z) (st : list str * str) : Prop :=
  Forall (fits max_chunk_size) (fst st) /\ current_ok max_chunk_size (snd st).

(** The non-whitespace characters held by the loop state. *)
Definition content (st : list str * str) : str :=
  remove_ws (concat (fst st)) ++ remove_ws (snd st).

(** *** The prompt *)

Definition professor : str := lit "professor".

(** The prompt both paths send, as a total function. *)
Definition system_prompt (self : worker) : str :=
  let base := get (prompts self) (prompt_type self) summary_prompt in
  if truthy (answer_length self) && Str.eqb (prompt_type self) (lit "professor")
  then lit "Answer length: " ++ answer_length self ++ lit ". " ++ base
  else base.

(** The clause put before the base instruction. *)
Definition length_clause (self : worker) : str :=
  lit "Answer length: " ++ answer_length self ++ lit ". ".

(** The table without its [professor] entry: the fixed instructions. *)
Definition fixed_prompts : dict :=
  [ (lit "summary", summary_prompt);
    (lit "brief", brief_prompt);
    (lit "qna", qna_prompt);
    (lit "questions", questions_prompt) ].

Definition known_types : list str :=
  [lit "summary"; lit "brief"; lit "qna"; lit "questions"; professor].

(** [req] is a call the worker makes in some run. *)
Definition sends (self : worker) (req : request) : Prop :=
  exists replies schedule fx,
    run self replies schedule = Some fx /\ In req (sent fx).

(** *** The tasks *)

(** What task [index] emits when it has taken its slot. *)
Definition entry_signal (chunks : list text_data_t) (index : nat) : signal :=
  output (lit "Processing chunk " ++ Str.of_nat (index + 1)
          ++ lit "/" ++ Str.of_nat (length chunks) ++ lit "...").

(** What task [index] appends to [summaries]. *)
Definition contribution (replies : nat -> reply) (index : nat) : str :=
  match replies index with
  | Ok summary => summary
  | Raise e => chunk_error_msg index e
  end.

(** What task [index] emits when its call ends. *)
Definition end_signal (chunks : list text_data_t) (replies : nat -> reply)
  (index : nat) : signal :=
  match replies index with
  | Ok _ => progress (progress_value index (length chunks))
  | Raise e => output (chunk_error_msg index e)
  end.

(** Slots: the free slots and the calls in flight add up to the two slots
    of the semaphore; the queue is what is left of the indices. *)
Definition well_formed (chunks : list text_data_t) (st : state) : Prop :=
  (semaphore st + length (in_flight st) = 2)%nat /\
  exists k, (k <= length chunks)%nat /\
            queue st = seq k (length chunks - k).

(** Results: every index is still to run, in flight, or has appended its
    one contribution to [summaries]. *)
Definition accounted (chunks : list text_data_t) (replies : nat -> reply)
  (st : state) : Prop :=
  Permutation
    (summaries st ++ map (contribution replies) (in_flight st ++ queue st))
    (map (contribution replies) (seq 0 (length chunks))).

(** Requests: every call carries the prompt and the sampling options of
    the worker, and as many calls were sent as tasks have gone past the
    semaphore. *)
Definition well_addressed (self : worker) (st : state) : Prop :=
  Forall (fun r => exists chunk,
            r = chat_request self (system_prompt self) chunk)
         (requests st) /\
  length (requests st) = (length (summaries st) + length (in_flight st))%nat.

(** Every task has two events ahead when it waits and one when its call is
    in flight. *)
Definition events_left (st : state) : nat :=
  2 * length (queue st) + length (in_flight st).

(** The indices of the calls that ended, in the order in which they
    ended. *)
Fixpoint ended (schedule : list event) : list nat :=
  match schedule with
  | [] => []
  | Enter :: schedule' => ended schedule'
  | Answer index :: schedule' => index :: ended schedule'
  end.

(** The values of the [progress] signals, in the order emitted. *)
Fixpoint progress_values (l : list signal) : list Z :=
  match l with
  | [] => []
  | progress v :: l' => v :: progress_values l'
  | _ :: l' => progress_values l'
  end.

(** *** Workers and backends to run the model on *)

(** A question to the professor, on the single-unit path. *)
Definition asking : worker :=
  {| text_data := TextStr (lit "Cells divide.");
     model := lit "gemma3:4b-it-qat";
     prompt_type := professor;
     custom_prompt := lit "What do cells do?";
     answer_length := lit "1-2 sentences";
     is_chunked := false |}.

(** A content type the table does not have. *)
Definition outlining : worker :=
  {| text_data := TextStr (lit "Cells divide.");
     model := lit "gemma3:4b-it-qat";
     prompt_type := lit "outline";
     custom_prompt := [];
     answer_length := lit "1-2 sentences";
     is_chunked := false |}.

(** Two chunks, both calls answered. *)
Definition two_chunks : worker :=
  {| text_data := TextList [lit "First part."; lit "Second part."];
     model := lit "gemma3:4b-it-qat";
     prompt_type := lit "brief";
     custom_prompt := [];
     answer_length := [];
     is_chunked := true |}.

Definition two_replies (index : nat) : reply :=
  Ok (lit "Summary " ++ Str.of_nat (index + 1)).

(** Both tasks take a slot, then the calls end in index order, or in the
    other order. *)
Definition in_order : list event := [Enter; Enter; Answer 0; Answer 1].
Definition out_of_order : list event := [Enter; Enter; Answer 1; Answer 0].

Definition three_chunks : list text_data_t :=
  [TextStr (lit "One."); TextStr (lit "Two."); TextStr (lit "Three.")].

(** Three chunks of a summary, the call of the second raising. *)
Definition three_parts : worker :=
  {| text_data := TextList [lit "One."; lit "Two."; lit "Three."];
     model := lit "gemma3:4b-it-qat";
     prompt_type := lit "summary";
     custom_prompt := [];
     answer_length := [];
     is_chunked := true |}.

Definition second_fails (index : nat) : reply :=
  if Nat.eqb index 1 then Raise (lit "connection refused")
  else Ok (lit "OK:" ++ Str.of_nat (index + 1)).

(** *** More on the segmenter *)

(** [sentence + ". "] *)
Definition with_period (sentence : str) : str := sentence ++ [dot; space].

(** A run of sentences as one chunk shows it: joined by ['. '], with the
    period of the last one. *)
Definition as_chunk (group : list str) : str :=
  join [dot; space] group ++ [dot].

(** Only whitespace, or nothing at all. *)
Definition blank (s : str) : Prop := Forall (fun c => isspace c = true) s.

(** A sentence as [sentences_of] gives them: not empty, and stripped. *)
Definition sentence_like (s : str) : Prop := s <> [] /\ strip s = s.

(** The runs of sentences closed so far, with the run [g] being packed
    closed too when it is not empty. *)
Definition close (groups : list (list str)) (g : list str)
  : list (list str) :=
  match g with
  | [] => groups
  | _ :: _ => groups ++ [g]
  end.

(** The loop state after whole sentences only were packed: the chunks are
    the closed runs, [current_chunk] is the run being packed. *)
Definition packed (done : list str) (st : list str * str) : Prop :=
  exists groups g,
    fst st = map as_chunk groups /\
    snd st = concat (map with_period g) /\
    concat groups ++ g = done /\
    Forall (fun x => x <> []) groups.

(** What [flush] appends: a stripped string that is not empty. *)
Definition flushed (c : str) : Prop :=
  exists cur, c = strip cur /\ truthy (strip cur) = true.

(** The loops keep a property of characters that holds of the period and
    of the space. *)
Definition all_chars (allowed : char -> Prop) (st : list str * str) : Prop :=
  Forall (Forall allowed) (fst st) /\ Forall allowed (snd st).

(** A character a chunk may hold: one of the text that is no line break,
    a period or a space. *)
Definition from_text (text : str) (c : char) : Prop :=
  (In c text /\ c <> LF /\ c <> CR) \/ c = dot \/ c = space.

(** *** More on the tasks *)

(** The first signal of [process_chunks]. *)
Definition start_signal (chunks : list text_data_t) : signal :=
  output (lit "Split into " ++ Str.of_nat (length chunks)
          ++ lit " chunks for processing...").

(** The signals of a schedule, one for each event: an entry is that of the
    next index, [next] counting the entries so far. *)
Fixpoint trace (chunks : list text_data_t) (replies : nat -> reply)
  (next : nat) (schedule : list event) : list signal :=
  match schedule with
  | [] => []
  | Enter :: schedule' =>
      entry_signal chunks next :: trace chunks replies (S next) schedule'
  | Answer index :: schedule' =>
      end_signal chunks replies index :: trace chunks replies next schedule'
  end.

(** Requests: the calls sent are those of the chunks before the queue, in
    the order of the chunks. *)
Definition sent_in_order (self : worker) (chunks : list text_data_t)
  (st : state) : Prop :=
  exists k, (k <= length chunks)%nat /\
            queue st = seq k (length chunks - k) /\
            requests st =
              map (chat_request self (system_prompt self)) (firstn k chunks).

Definition is_finished (s : signal) : bool :=
  match s with
  | finished_signal _ => true
  | _ => false
  end.

(** A worker given an empty list of chunks. *)
Definition no_chunks : worker :=
  {| text_data := TextList [];
     model := lit "gemma3:4b-it-qat";
     prompt_type := lit "summary";
     custom_prompt := [];
     answer_length := [];
     is_chunked := true |}.

(** A worker given one string, to be run as a chunk. *)
Definition one_chunk : worker :=
  {| text_data := TextStr (lit "Cells divide.");
     model := lit "gemma3:4b-it-qat";
     prompt_type := lit "summary";
     custom_prompt := [];
     answer_length := [];
     is_chunked := true |}.

(** [f"[ERROR] Failed to process text: {str(e)}"] *)
Definition text_error_msg (e : str) : str :=
  lit "[ERROR] Failed to process text: " ++ e.

(** The temperature literal of [ask_question]. *)
Module AppLit.
Import PrimFloat.
Definition f0_5 : float := 0.5%float.
End AppLit.

(** ** The application: what the window asks of the worker

    Of [PDFManagerApp] the model keeps what decides the worker that is
    started and the document that is written; the widgets are left out.
    What a widget holds when the method runs is an argument, and so is what
    [extract_text_from_pdf] comes to: the text, or an exception. *)

Module App.

(** How a method that may start a worker ends. *)
Inductive outcome : Type :=
| NotReady                   (* the guard at the top returns *)
| Warned (message : str)     (* [QMessageBox.warning], then return *)
| Failed (message : str)     (* the [except] block: [QMessageBox.critical] *)
| Started (w : worker).      (* the worker is built and started *)

Definition default_model : str := lit "gemma3:4b-it-qat".

(** [s[:n]] *)
Definition prefix (n : nat) (s : str) : str := firstn n s.

(** [s.lstrip('.')] and [s.rstrip('.')] *)
Fixpoint lstrip_dots (s : str) : str :=
  match s with
  | c :: s' => if (c =? dot)%N then lstrip_dots s' else s
  | [] => []
  end.

Definition rstrip_dots (s : str) : str := rev (lstrip_dots (rev s)).

(** *** [extract_topic]

    [title_word w] stands for [w.isalpha() and (w.isupper() or
    w.istitle())], which reads the Unicode tables of the interpreter. *)

(** [3 <= len(words) <= 10] and [len(cap_words) / len(words) > 0.5] *)
Definition title_like (title_word : str -> bool) (sentence : str) : bool :=
  let words := words_from [] sentence in
  if (3 <=? length words)%nat && (length words <=? 10)%nat
  then
    let cap_words := filter title_word words in
    PrimFloat.ltb AppLit.f0_5
      (truediv (Z.of_nat (length cap_words)) (Z.of_nat (length words)))
  else false.

(** The loop [for sentence in sentences[:3]], up to its [return]. *)
Fixpoint first_title (title_word : str -> bool) (sentences : list str)
  : option str :=
  match sentences with
  | [] => None
  | sentence :: rest =>
      if title_like title_word sentence
      then Some (rstrip_dots sentence)
      else first_title title_word rest
  end.

Definition placeholder : str := lit "PDF Content Summary".

Definition extract_topic (title_word : str -> bool) (text_snippet : str)
  : str :=
  let sentences := sentences_of text_snippet in
  match first_title title_word (firstn 3 sentences) with
  | Some title => title
  | None =>
      match sentences with
      | first :: _ => first
      | [] => placeholder
      end
  end.

(** *** [process_pdf] *)

Definition process_pdf (title_word : str -> bool) (has_file_path : bool)
  (extracted : exc str) : outcome * option str :=
  if negb has_file_path then (NotReady, None)
  else
    match extracted with
    | Raise e => (Failed (lit "Failed to process PDF: " ++ e), None)
    | Ok text =>
        if negb (truthy (strip text))
        then (Warned (lit "No text found in PDF"), None)
        else
          let current_pdf_topic :=
            extract_topic title_word (prefix 1000 text) in
          (Started {| text_data := TextStr text;
                      model := default_model;
                      prompt_type := lit "summary";
                      custom_prompt := [];
                      answer_length := [];
                      is_chunked := false |},
           Some current_pdf_topic)
    end.

(** *** [generate_content] *)

Definition content_type_map : dict :=
  [ (lit "Summary", lit "summary");
    (lit "Brief Overview", lit "brief");
    (lit "Q&A", lit "qna");
    (lit "Practice Questions", lit "questions") ].

(** The prompt built from the number and the type of the questions. *)
Definition question_prompt (selected_type : str) (question_count : nat)
  (question_type : str) : str :=
  if existsb (Str.eqb selected_type) [lit "Q&A"; lit "Practice Questions"]
  then
    if Str.eqb selected_type (lit "Q&A")
    then
      lit "Generate " ++ Str.of_nat question_count
      ++ lit " important questions and detailed answers "
      ++ lit "based on the following text. Format each as:" ++ [LF]
      ++ lit "Q: [Question]" ++ [LF]
      ++ lit "A: [Detailed answer]" ++ [LF]
      ++ lit "Question type: " ++ question_type
    else
      lit "Create " ++ Str.of_nat question_count
      ++ lit " practice questions based on the following text. "
      ++ lit "Include " ++ question_type ++ lit " questions. "
      ++ lit "Number each question clearly."
  else [].

Definition generate_content (has_content_file_path : bool)
  (selected_type : str) (question_count : nat) (question_type : str)
  (extracted : exc str) : outcome :=
  if negb has_content_file_path then NotReady
  else
    let content_type := get content_type_map selected_type (lit "summary") in
    let custom_prompt :=
      question_prompt selected_type question_count question_type in
    match extracted with
    | Raise e => Failed (lit "Failed to generate content: " ++ e)
    | Ok text =>
        if negb (truthy (strip text))
        then Warned (lit "No text found in PDF")
        else Started {| text_data := TextStr text;
                        model := default_model;
                        prompt_type := content_type;
                        custom_prompt := custom_prompt;
                        answer_length := [];
                        is_chunked := false |}
    end.

(** *** [ask_question] *)

Definition length_map : dict :=
  [ (lit "Brief (1-2 sentences)", lit "Brief answer (1-2 sentences)");
    (lit "Medium (3-5 sentences)", lit "Medium-length answer (3-5 sentences)");
    (lit "Detailed (1 paragraph)", lit "Detailed answer (1 paragraph)");
    (lit "Comprehensive (2+ paragraphs)",
     lit "Comprehensive answer (2+ paragraphs)") ].

Definition context_limit : nat := 5000.

Definition professor_instruction : str :=
  lit "You are a helpful professor assistant. Answer questions clearly and provide detailed explanations.".

(** The user message: the question and the start of the text. *)
Definition question_message (question current_pdf_text : str) : str :=
  lit "Based on the following text, please answer this question: "
  ++ question ++ [LF]
  ++ lit "Context text:" ++ [LF]
  ++ prefix context_limit current_pdf_text ++ lit "...".

Definition ask_question (has_professor_file_path : bool)
  (current_pdf_text question_input answer_length_combo : str) : outcome :=
  if negb has_professor_file_path || negb (truthy current_pdf_text)
  then NotReady
  else
    let question := strip question_input in
    if negb (truthy question)
    then Warned (lit "Please enter a question")
    else
      let answer_length := get length_map answer_length_combo [] in
      let prompt := question_message question current_pdf_text in
      Started {| text_data := TextStr prompt;
                 model := default_model;
                 prompt_type := lit "professor";
                 custom_prompt := professor_instruction;
                 answer_length := answer_length;
                 is_chunked := false |}.

(** *** [create_word_document]: title, metadata and sections *)

(** A run of a paragraph, with what is set on it. *)
Inductive run_style : Type := Plain | Bold | Italic.

(** [document_title], as the first [if] chooses it. *)
Definition document_title (filename topic : str) : str :=
  if truthy topic && negb (Str.eqb topic placeholder) then topic
  else if truthy filename && negb (Str.eqb filename (lit "Unknown"))
       then filename
       else placeholder.

(** The runs of the [metadata] paragraph. *)
Definition metadata_runs (filename topic : str) : list (str * run_style) :=
  [(lit "Generated with Gemma3:4b-it-qat" ++ [LF], Bold)]
  ++ (if truthy filename && negb (Str.eqb filename (lit "Unknown"))
      then [(lit "Source: " ++ filename ++ [LF], Plain)] else [])
  ++ (if truthy topic && negb (Str.eqb topic (document_title filename topic))
      then [(lit "Topic: " ++ topic ++ [LF], Plain)] else [])
  ++ [(lit "Editable Notes - Feel free to modify", Italic)].

(** [sub in s] for a [sub] that is not empty. *)
Fixpoint contains (sub s : str) : bool :=
  starts_with sub s ||
  match s with
  | [] => false
  | _ :: s' => contains sub s'
  end.

Definition section_marker : str := lit "--- SECTION BREAK ---".

(** [sections], as the [if] on the marker sets it. *)
Definition sections_of (content : str) : list str :=
  if contains section_marker content
  then split section_marker content
  else [content].



End App.

(** The worker of twelve short-answer questions on a text. *)
Definition quiz : worker :=
  {| text_data := TextStr (lit "Cells divide.");
     model := App.default_model;
     prompt_type := lit "qna";
     custom_prompt := App.question_prompt (lit "Q&A") 12 (lit "Short Answer");
     answer_length := [];
     is_chunked := false |}.

(** The sections of a joined summary: every part keeps the blank lines the
    join put around the marker. [before] is what stands before the first
    part. *)
Fixpoint padded (before : str) (parts : list str) : list str :=
  match parts with
  | [] => []
  | [p] => [before ++ p]
  | p :: rest => (before ++ p ++ [LF; LF]) :: padded [LF; LF] rest
  end.

(** *** [create_word_document]: the blocks of the document

    The lines that format a section without an error (the [else] branch of
    [if "[ERROR]" in section], which only adds paragraphs) are an argument,
    [format_section filename section]; [paragraph] is what they add. *)

Module Doc.

Section Blocks.

Variable paragraph : Type.
Variable format_section : str -> str -> list paragraph.

Inductive block : Type :=
| Heading (text : str) (level : nat)           (* [doc.add_heading] *)
| Metadata (runs : list (str * App.run_style)) (* the centred paragraph *)
| Blank                                        (* [doc.add_paragraph()] *)
| Error (text : str)                           (* the run in red *)
| Formatted (p : paragraph).                   (* added by the [else] branch *)

Definition error_marker : str := lit "[ERROR]".

(** The body of [for i, section in enumerate(sections)], [total] being
    [len(sections)]. *)
Definition section_blocks (filename : str) (total i : nat) (section : str)
  : list block :=
  (if (1 <? total)%nat
   then [Heading (lit "Section " ++ Str.of_nat (i + 1)) 1]
   else [])
  ++ (if App.contains error_marker section
      then [Error (lit "[ERROR] " ++ section)]
      else map Formatted (format_section filename section))
  ++ (if (i <? total - 1)%nat then [Blank] else []).

(** The loop over the sections, from index [i] on. *)
Fixpoint sections_blocks (filename : str) (total i : nat)
  (sections : list str) : list block :=
  match sections with
  | [] => []
  | section :: rest =>
      section_blocks filename total i section
      ++ sections_blocks filename total (S i) rest
  end.

(** The document that is saved. *)
Definition create_word_document (content filename topic : str)
  : list block :=
  let sections := App.sections_of content in
  [Heading (App.document_title filename topic) 0;
   Metadata (App.metadata_runs filename topic);
   Blank]
  ++ sections_blocks filename (length sections) 0 sections.

(** The texts of the headings of the sections, and of the runs in red. *)
Fixpoint section_headings (doc : list block) : list str :=
  match doc with
  | [] => []
  | Heading text 1 :: doc' => text :: section_headings doc'
  | _ :: doc' => section_headings doc'
  end.

Fixpoint errors (doc : list block) : list str :=
  match doc with
  | [] => []
  | Error text :: doc' => text :: errors doc'
  | _ :: doc' => errors doc'
  end.

End Blocks.

End Doc.

(** ** Facts about the string operations *)

Section StrFacts.

Lemma len_app (a b : str) : len (a ++ b) = (len a + len b)%Z.
Proof. unfold len. rewrite length_app. lia. Qed.

Lemma len_nonneg (a : str) : (0 <= len a)%Z.
Proof. unfold len. lia. Qed.

Lemma lstrip_length (s : str) : (length (lstrip s) <= length s)%nat.
Proof.
  induction s as [|c s IH]; simpl; [lia|].
  destruct (isspace c); simpl; lia.
Qed.

Lemma lstrip_In (c : char) (s : str) : In c (lstrip s) -> In c s.
Proof.
  induction s as [|d s IH]; simpl; [tauto|].
  destruct (isspace d); simpl; tauto.
Qed.

Lemma strip_len (s : str) : (len (strip s) <= len s)%Z.
Proof.
  unfold strip, rstrip, len.
  pose proof (lstrip_length (rev (lstrip (rev s)))) as H1.
  pose proof (lstrip_length (rev s)) as H2.
  rewrite length_rev in H1. rewrite length_rev in H2. lia.
Qed.

Lemma strip_In (c : char) (s : str) : In c (strip s) -> In c s.
Proof.
  unfold strip, rstrip. intros H.
  apply lstrip_In in H. apply in_rev in H. apply lstrip_In in H.
  now apply in_rev in H.
Qed.

Lemma rstrip_snoc_space (s : str) (c : char) :
  isspace c = true -> rstrip (s ++ [c]) = rstrip s.
Proof.
  intros Hc. unfold rstrip. rewrite rev_app_distr. simpl. now rewrite Hc.
Qed.

Lemma strip_snoc_space (s : str) (c : char) :
  isspace c = true -> strip (s ++ [c]) = strip s.
Proof. intros Hc. unfold strip. now rewrite rstrip_snoc_space. Qed.

Lemma isspace_space : isspace space = true.
Proof. reflexivity. Qed.

Lemma split_from_nonempty (sep : str) (skip : nat) (s : str) :
  split_from sep skip s <> [].
Proof.
  revert skip. induction s as [|c s IH]; intros skip; simpl; [discriminate|].
  destruct skip as [|k]; [|apply IH].
  destruct (starts_with sep (c :: s)); [discriminate|].
  destruct (split_from sep 0 s); discriminate.
Qed.

Lemma split_from_cons (sep : str) (c : char) (s : str) :
  split_from sep 0 (c :: s) =
  if starts_with sep (c :: s)
  then [] :: split_from sep (Nat.pred (length sep)) s
  else match split_from sep 0 s with
       | p :: ps => (c :: p) :: ps
       | [] => [[c]]
       end.
Proof. reflexivity. Qed.

Lemma starts_with_space (c : char) (s : str) :
  starts_with [space] (c :: s) = (space =? c)%N.
Proof. cbn [starts_with]. apply andb_true_r. Qed.

(** The pieces of [split(' ')] contain no space. *)
Lemma split_space_no_space (s : str) :
  Forall (fun w => ~ In space w) (split [space] s).
Proof.
  unfold split. induction s as [|c s IH].
  - constructor; [simpl; tauto|constructor].
  - rewrite split_from_cons, starts_with_space.
    destruct (N.eqb_spec space c) as [Heq|Hne].
    + constructor; [simpl; tauto|exact IH].
    + destruct (split_from [space] 0 s) as [|p ps].
      * constructor; [|constructor]. simpl. intros [H|[]]. congruence.
      * inversion IH; subst. constructor; [|assumption].
        simpl. intros [H|H]; [congruence|tauto].
Qed.

Lemma remove_ws_app (a b : str) :
  remove_ws (a ++ b) = remove_ws a ++ remove_ws b.
Proof. apply filter_app. Qed.

Lemma remove_ws_lstrip (s : str) : remove_ws (lstrip s) = remove_ws s.
Proof.
  induction s as [|c s IH]; simpl; [reflexivity|].
  destruct (isspace c) eqn:E; simpl; [exact IH|]. now rewrite E.
Qed.

Lemma remove_ws_rev (s : str) : remove_ws (rev s) = rev (remove_ws s).
Proof.
  unfold remove_ws. induction s as [|c s IH]; simpl; [reflexivity|].
  rewrite filter_app, IH. simpl.
  destruct (isspace c); simpl; [now rewrite app_nil_r | reflexivity].
Qed.

Lemma remove_ws_strip (s : str) : remove_ws (strip s) = remove_ws s.
Proof.
  unfold strip, rstrip.
  rewrite remove_ws_lstrip, remove_ws_rev, remove_ws_lstrip, remove_ws_rev.
  apply rev_involutive.
Qed.


(** The pieces of [split(' ')] hold the non-whitespace characters of the
    string, in order. *)
Lemma remove_ws_cons (c : char) (s : str) :
  remove_ws (c :: s) = (if isspace c then [] else [c]) ++ remove_ws s.
Proof. unfold remove_ws. simpl. now destruct (isspace c). Qed.

Lemma remove_ws_split_space (s : str) :
  concat (map remove_ws (split [space] s)) = remove_ws s.
Proof.
  unfold split. induction s as [|c s IH]; [reflexivity|].
  rewrite split_from_cons, starts_with_space.
  destruct (N.eqb_spec space c) as [Heq|Hne].
  - subst c. exact IH.
  - pose proof (@split_from_nonempty [space] 0 s) as Hn.
    destruct (split_from [space] 0 s) as [|p ps]; [congruence|].
    cbn [map concat] in *.
    rewrite !remove_ws_cons, <- IH, app_assoc. reflexivity.
Qed.

Lemma starts_with_skipn (p s : str) :
  starts_with p s = true -> s = p ++ skipn (length p) s.
Proof.
  revert s. induction p as [|a p IH]; intros [|b s]; simpl;
    try reflexivity; try discriminate.
  intros H. apply andb_prop in H as [Hab Hps].
  apply N.eqb_eq in Hab. subst b. f_equal. now apply IH.
Qed.

Lemma join_cons (sep p : str) (ps : list str) :
  ps <> [] -> join sep (p :: ps) = p ++ sep ++ join sep ps.
Proof. destruct ps; [congruence|reflexivity]. Qed.




End StrFacts.

(** ** Facts about the segmenter *)

Section SegmenterFacts.

Variable max_chunk_size : Z.

Lemma flush_fits (chunks : list str) (cur : str) :
  Forall (fits max_chunk_size) chunks -> current_ok max_chunk_size cur -> Forall (fits max_chunk_size) (flush chunks cur).
Proof.
  intros Hc Hcur. unfold flush.
  destruct (truthy (strip cur)); [|exact Hc].
  apply Forall_app. split; [exact Hc|].
  constructor; [|constructor].
  destruct Hcur as [H|H]; [left|right; exact H].
  pose proof (strip_len cur). lia.
Qed.

Lemma word_step_inv (st : list str * str) (word : str) :
  ~ In space word -> loop_inv max_chunk_size st -> loop_inv max_chunk_size (word_step max_chunk_size st word).
Proof.
  destruct st as [chunks cur]. intros Hw [Hc Hcur]. simpl in *.
  destruct (Z.leb_spec (len cur + len word + 1) max_chunk_size) as [Hle|Hgt].
  - split; [exact Hc|]. left. simpl.
    rewrite !len_app. change (len [space]) with 1%Z. lia.
  - split; simpl.
    + now apply flush_fits.
    + right. rewrite strip_snoc_space by apply isspace_space.
      intros H. apply Hw. now apply strip_In.
Qed.

Lemma words_inv (words : list str) (st : list str * str) :
  Forall (fun w => ~ In space w) words -> loop_inv max_chunk_size st ->
  loop_inv max_chunk_size (fold_left (word_step max_chunk_size) words st).
Proof.
  revert st. induction words as [|w ws IH]; intros st Hws Hst; [exact Hst|].
  inversion Hws; subst. simpl. apply IH; [assumption|].
  now apply word_step_inv.
Qed.

Lemma current_ok_nil : current_ok max_chunk_size [].
Proof. right. simpl. tauto. Qed.

Lemma sentence_step_inv (st : list str * str) (sentence : str) :
  loop_inv max_chunk_size st -> loop_inv max_chunk_size (sentence_step max_chunk_size st sentence).
Proof.
  destruct st as [chunks cur]. intros [Hc Hcur]. simpl in Hc, Hcur.
  unfold sentence_step.
  destruct (Z.leb_spec (len (cur ++ sentence ++ [dot; space])) max_chunk_size)
    as [Hle|Hgt].
  - split; [exact Hc|]. now left.
  - destruct (Z.leb_spec (len (sentence ++ [dot; space])) max_chunk_size)
      as [Hle'|Hgt'].
    + split; [now apply flush_fits|]. now left.
    + pose proof (@words_inv (split [space] (sentence ++ [dot; space]))
                    (flush chunks cur, [])) as Hw.
      destruct (fold_left (word_step max_chunk_size)
                  (split [space] (sentence ++ [dot; space]))
                  (flush chunks cur, [])) as [chunks' cur'].
      destruct Hw as [Hc' Hcur'].
      * apply split_space_no_space.
      * split; [now apply flush_fits|apply current_ok_nil].
      * split; [now apply flush_fits|apply current_ok_nil].
Qed.

Lemma sentences_inv (sentences : list str) (st : list str * str) :
  loop_inv max_chunk_size st ->
  loop_inv max_chunk_size (fold_left (sentence_step max_chunk_size) sentences st).
Proof.
  revert st. induction sentences as [|x xs IH]; intros st Hst; [exact Hst|].
  simpl. apply IH. now apply sentence_step_inv.
Qed.

Lemma remove_ws_nil_of_strip (cur : str) :
  truthy (strip cur) = false -> remove_ws cur = [].
Proof.
  intros H. rewrite <- remove_ws_strip.
  destruct (strip cur); [reflexivity|discriminate].
Qed.

Lemma flush_content (chunks : list str) (cur : str) :
  remove_ws (concat (flush chunks cur)) =
  remove_ws (concat chunks) ++ remove_ws cur.
Proof.
  unfold flush. destruct (truthy (strip cur)) eqn:E.
  - rewrite concat_app, remove_ws_app. simpl.
    now rewrite app_nil_r, remove_ws_strip.
  - rewrite (remove_ws_nil_of_strip _ E). now rewrite app_nil_r.
Qed.

Lemma word_step_content (st : list str * str) (word : str) :
  content (word_step max_chunk_size st word) = content st ++ remove_ws word.
Proof.
  destruct st as [chunks cur]. unfold word_step, content.
  destruct (len cur + len word + 1 <=? max_chunk_size)%Z; simpl.
  - rewrite !remove_ws_app. simpl. now rewrite app_nil_r, app_assoc.
  - rewrite flush_content, remove_ws_app. simpl. now rewrite app_nil_r.
Qed.

Lemma words_content (words : list str) (st : list str * str) :
  content (fold_left (word_step max_chunk_size) words st) =
  content st ++ concat (map remove_ws words).
Proof.
  revert st. induction words as [|w ws IH]; intros st; simpl.
  - now rewrite app_nil_r.
  - rewrite IH, word_step_content. now rewrite app_assoc.
Qed.

Lemma sentence_step_content (st : list str * str) (sentence : str) :
  content (sentence_step max_chunk_size st sentence) =
  content st ++ remove_ws sentence ++ [dot].
Proof.
  destruct st as [chunks cur]. unfold sentence_step.
  assert (Hswp : remove_ws (sentence ++ [dot; space]) =
                 remove_ws sentence ++ [dot])
    by (now rewrite remove_ws_app).
  destruct (len (cur ++ sentence ++ [dot; space]) <=? max_chunk_size)%Z.
  - unfold content. simpl. rewrite remove_ws_app, Hswp. now rewrite app_assoc.
  - destruct (len (sentence ++ [dot; space]) <=? max_chunk_size)%Z.
    + unfold content. simpl. now rewrite flush_content, Hswp.
    + pose proof (words_content (split [space] (sentence ++ [dot; space]))
                    (flush chunks cur, [])) as Hw.
      destruct (fold_left (word_step max_chunk_size)
                  (split [space] (sentence ++ [dot; space]))
                  (flush chunks cur, [])) as [chunks' cur'].
      unfold content in *. simpl in *.
      rewrite flush_content, app_nil_r, Hw.
      rewrite flush_content, app_nil_r.
      now rewrite remove_ws_split_space, Hswp.
Qed.

Lemma sentences_content (sentences : list str) (st : list str * str) :
  content (fold_left (sentence_step max_chunk_size) sentences st) =
  content st ++ concat (map (fun x => remove_ws x ++ [dot]) sentences).
Proof.
  revert st. induction sentences as [|x xs IH]; intros st; simpl.
  - now rewrite app_nil_r.
  - rewrite IH, sentence_step_content. now rewrite <- app_assoc.
Qed.

(** The chunks hold the non-whitespace characters of the non-blank
    sentences, each followed by a period, in order. *)
Lemma chunks_content (text : str) :
  remove_ws (concat (split_text_into_chunks text max_chunk_size)) =
  concat (map (fun x => remove_ws x ++ [dot])
            (sentences_of (normalize_breaks text))).
Proof.
  unfold split_text_into_chunks.
  pose proof (sentences_content (sentences_of (normalize_breaks text))
                ([], [])) as H.
  destruct (fold_left (sentence_step max_chunk_size)
              (sentences_of (normalize_breaks text)) ([], []))
    as [chunks cur].
  unfold content in H. simpl in H. now rewrite flush_content.
Qed.

End SegmenterFacts.

(** ** Facts about the prompt table *)

Section PromptFacts.

Variable self : worker.

Lemma getitem_summary : getitem (prompts self) (lit "summary") = Ok summary_prompt.
Proof. reflexivity. Qed.

Lemma base_prompt_ok :
  base_prompt self = Ok (get (prompts self) (prompt_type self) summary_prompt).
Proof. unfold base_prompt. now rewrite getitem_summary. Qed.

(** Building the prompt never raises. *)
Lemma build_prompt_ok : build_prompt self = Ok (system_prompt self).
Proof.
  unfold build_prompt, system_prompt. rewrite base_prompt_ok. simpl.
  destruct (truthy (answer_length self) &&
            Str.eqb (prompt_type self) (lit "professor")); [|reflexivity].
  now rewrite <- !app_assoc.
Qed.

Lemma eqb_eq (a b : str) : Str.eqb a b = true <-> a = b.
Proof.
  unfold Str.eqb. destruct (list_eq_dec N.eq_dec a b); split;
    congruence || discriminate || tauto.
Qed.

Lemma eqb_refl (a : str) : Str.eqb a a = true.
Proof. now apply eqb_eq. Qed.

Lemma eqb_neq (a b : str) : Str.eqb a b = false <-> a <> b.
Proof.
  unfold Str.eqb. destruct (list_eq_dec N.eq_dec a b); split;
    congruence || discriminate || tauto.
Qed.

End PromptFacts.

(** ** Facts about the fan-out over chunks *)

Lemma take_out_perm (x : nat) (l r : list nat) :
  take_out x l = Some r -> Permutation l (x :: r).
Proof.
  revert r. induction l as [|y l IH]; intros r; simpl; [discriminate|].
  destruct (Nat.eqb_spec x y) as [->|Hne].
  - intros H. injection H as <-. reflexivity.
  - destruct (take_out x l) as [r'|]; [|discriminate].
    intros H. injection H as <-.
    rewrite (IH r' eq_refl). apply perm_swap.
Qed.

Lemma take_out_In (x : nat) (l : list nat) :
  In x l -> exists r, take_out x l = Some r.
Proof.
  induction l as [|y l IH]; simpl; [tauto|].
  destruct (Nat.eqb_spec x y) as [->|Hne]; [eauto|].
  intros [H|H]; [congruence|].
  destruct (IH H) as [r ->]. eauto.
Qed.

Lemma gathered_true (st : state) :
  gathered st = true <-> queue st = [] /\ in_flight st = [].
Proof.
  unfold gathered. destruct (queue st), (in_flight st); split;
    intros H; try discriminate; try tauto; destruct H; discriminate.
Qed.

Section ChunkFacts.

Variable self : worker.
Variable chunks : list text_data_t.
Lemma enter_some (st st' : state) :
  enter self chunks st = Some st' ->
  exists index chunk,
    nth_error chunks index = Some chunk /\
    queue st = index :: queue st' /\
    semaphore st = S (semaphore st') /\
    in_flight st' = in_flight st ++ [index] /\
    summaries st' = summaries st /\
    signals st' = signals st ++ [entry_signal chunks index] /\
    requests st' =
      requests st ++ [chat_request self (system_prompt self) chunk].
Proof.
  unfold enter. rewrite build_prompt_ok.
  destruct (queue st) as [|index waiting]; [discriminate|].
  destruct (semaphore st) as [|free]; [discriminate|].
  destruct (nth_error chunks index) as [chunk|] eqn:E; [|discriminate].
  intros H. injection H as <-. exists index, chunk. simpl. tauto.
Qed.

Variable replies : nat -> reply.

Lemma answer_some (index : nat) (st st' : state) :
  answer chunks replies index st = Some st' ->
  take_out index (in_flight st) = Some (in_flight st') /\
  queue st' = queue st /\
  semaphore st' = S (semaphore st) /\
  summaries st' = summaries st ++ [contribution replies index] /\
  signals st' = signals st ++ [end_signal chunks replies index] /\
  requests st' = requests st.
Proof.
  unfold answer, contribution, end_signal.
  destruct (take_out index (in_flight st)) as [others|]; [|discriminate].
  intros H. injection H as <-.
  destruct (replies index); simpl; tauto.
Qed.

(** A property kept by every event holds after every schedule. *)
Lemma exec_keeps (P : state -> Prop) :
  (forall ev st st', P st -> step self chunks replies ev st = Some st' -> P st') ->
  forall schedule st st',
    P st -> exec self chunks replies schedule st = Some st' -> P st'.
Proof.
  intros Hstep. induction schedule as [|ev schedule IH]; intros st st' HP; simpl.
  - intros H. now injection H as <-.
  - destruct (step self chunks replies ev st) as [st1|] eqn:E; [|discriminate].
    apply IH. eapply Hstep; eauto.
Qed.

Lemma start_well_formed : well_formed chunks (start chunks).
Proof.
  split; [reflexivity|]. exists 0%nat. split; [lia|].
  simpl. now rewrite Nat.sub_0_r.
Qed.

Lemma step_well_formed (ev : event) (st st' : state) :
  well_formed chunks st -> step self chunks replies ev st = Some st' ->
  well_formed chunks st'.
Proof.
  intros [Hs (k & Hk & Hq)]. destruct ev as [|index]; simpl; intros H.
  - apply enter_some in H as (index & chunk & _ & Hq' & Hsem & Hfl & _).
    split; [rewrite Hfl, length_app; simpl; lia|].
    exists (S k). rewrite Hq in Hq'.
    destruct (length chunks - k)%nat as [|m] eqn:E; [discriminate|].
    simpl in Hq'. injection Hq' as _ Hq'.
    split; [lia|]. replace (length chunks - S k)%nat with m by lia. now symmetry.
  - apply answer_some in H as (Ht & Hq' & Hsem & _).
    apply take_out_perm, Permutation_length in Ht. simpl in Ht.
    split; [lia|]. exists k. now rewrite Hq'.
Qed.

Lemma exec_well_formed (schedule : list event) (st : state) :
  exec self chunks replies schedule (start chunks) = Some st ->
  well_formed chunks st.
Proof.
  apply (exec_keeps (well_formed chunks)); [|apply start_well_formed].
  intros ev s s'. apply step_well_formed.
Qed.

Lemma start_accounted : accounted chunks replies (start chunks).
Proof. unfold accounted. simpl. reflexivity. Qed.

Lemma step_accounted (ev : event) (st st' : state) :
  accounted chunks replies st -> step self chunks replies ev st = Some st' -> accounted chunks replies st'.
Proof.
  unfold accounted. intros Hacc. destruct ev as [|index]; simpl; intros H.
  - apply enter_some in H as (index & chunk & _ & Hq & _ & Hfl & Hsum & _).
    rewrite Hsum, Hfl, <- app_assoc. simpl. now rewrite <- Hq.
  - apply answer_some in H as (Ht & Hq & _ & Hsum & _).
    rewrite <- Hacc, Hsum, Hq, <- app_assoc.
    apply Permutation_app_head.
    apply take_out_perm in Ht.
    rewrite (Permutation_map (contribution replies)
               (Permutation_app_tail (queue st) Ht)).
    reflexivity.
Qed.

Lemma exec_accounted (schedule : list event) (st : state) :
  exec self chunks replies schedule (start chunks) = Some st ->
  accounted chunks replies st.
Proof.
  apply (exec_keeps (accounted chunks replies)); [|apply start_accounted].
  intros ev s s'. apply step_accounted.
Qed.

(** When [gather] returns, [summaries] holds one contribution per chunk. *)
Lemma gathered_summaries (schedule : list event) (st : state) :
  exec self chunks replies schedule (start chunks) = Some st ->
  gathered st = true ->
  Permutation (summaries st)
              (map (contribution replies) (seq 0 (length chunks))).
Proof.
  intros He Hg. apply exec_accounted in He. unfold accounted in He.
  apply gathered_true in Hg as [Hq Hf].
  rewrite Hq, Hf in He. simpl in He. now rewrite app_nil_r in He.
Qed.

Lemma summaries_from (schedule : list event) (st st' : state) :
  exec self chunks replies schedule st = Some st' ->
  summaries st' = summaries st ++ map (contribution replies) (ended schedule).
Proof.
  revert st. induction schedule as [|ev schedule IH]; intros st; simpl.
  - intros H. injection H as <-. now rewrite app_nil_r.
  - destruct (step self chunks replies ev st) as [st1|] eqn:E; [|discriminate].
    intros H. apply IH in H. rewrite H.
    destruct ev as [|index]; simpl in E.
    + apply enter_some in E as (index & chunk & _ & _ & _ & _ & Hsum & _).
      now rewrite Hsum.
    + apply answer_some in E as (_ & _ & _ & Hsum & _).
      rewrite Hsum, <- app_assoc. reflexivity.
Qed.

Lemma summaries_in_completion_order (schedule : list event) (st : state) :
  exec self chunks replies schedule (start chunks) = Some st ->
  summaries st = map (contribution replies) (ended schedule).
Proof. intros H. now apply summaries_from in H. Qed.

Lemma step_well_addressed (ev : event) (st st' : state) :
  well_addressed self st -> step self chunks replies ev st = Some st' ->
  well_addressed self st'.
Proof.
  intros [Hr Hn]. destruct ev as [|index]; simpl; intros H.
  - apply enter_some in H as (index & chunk & _ & _ & _ & Hfl & Hsum & _ & Hreq).
    split.
    + rewrite Hreq. apply Forall_app. split; [exact Hr|].
      constructor; [now exists chunk|constructor].
    + rewrite Hreq, Hfl, Hsum, !length_app. simpl. lia.
  - apply answer_some in H as (Ht & _ & _ & Hsum & _ & Hreq).
    apply take_out_perm, Permutation_length in Ht. simpl in Ht.
    split; [now rewrite Hreq|].
    rewrite Hreq, Hsum, length_app. simpl. lia.
Qed.

Lemma exec_well_addressed (schedule : list event) (st : state) :
  exec self chunks replies schedule (start chunks) = Some st ->
  well_addressed self st.
Proof.
  apply (exec_keeps (well_addressed self)).
  - intros ev s s'. apply step_well_addressed.
  - split; [constructor|reflexivity].
Qed.

(** *** Termination *)

Lemma step_events_left (ev : event) (st st' : state) :
  step self chunks replies ev st = Some st' ->
  events_left st = S (events_left st').
Proof.
  unfold events_left. destruct ev as [|index]; simpl; intros H.
  - apply enter_some in H as (index & chunk & _ & Hq & _ & Hfl & _).
    rewrite Hq, Hfl, length_app. simpl. lia.
  - apply answer_some in H as (Ht & Hq & _).
    apply take_out_perm, Permutation_length in Ht. simpl in Ht.
    rewrite Hq. lia.
Qed.

Lemma exec_events_left (schedule : list event) (st st' : state) :
  exec self chunks replies schedule st = Some st' ->
  events_left st = (length schedule + events_left st')%nat.
Proof.
  revert st. induction schedule as [|ev schedule IH]; intros st; simpl.
  - intros H. now injection H as <-.
  - destruct (step self chunks replies ev st) as [st1|] eqn:E; [|discriminate].
    intros H. apply IH in H. apply step_events_left in E. lia.
Qed.

(** No schedule is longer than two events per chunk. *)
Lemma schedule_bound (schedule : list event) (st : state) :
  exec self chunks replies schedule (start chunks) = Some st ->
  (length schedule <= 2 * length chunks)%nat.
Proof.
  intros H. apply exec_events_left in H.
  unfold events_left in H at 1. simpl in H. rewrite length_seq in H.
  lia.
Qed.

(** While a task is left, some event can happen. *)
Lemma never_stuck (st : state) :
  well_formed chunks st -> gathered st = false ->
  exists ev st', step self chunks replies ev st = Some st'.
Proof.
  intros [Hs (k & Hk & Hq)] Hg.
  destruct (in_flight st) as [|index others] eqn:Hfl.
  - destruct (queue st) as [|index waiting] eqn:Hqueue.
    + unfold gathered in Hg. rewrite Hqueue, Hfl in Hg. discriminate.
    + exists Enter. simpl. unfold enter. rewrite Hqueue.
      simpl in Hs. rewrite Nat.add_0_r in Hs. rewrite Hs.
      destruct (length chunks - k)%nat as [|m] eqn:E; [discriminate|].
      simpl in Hq. injection Hq as -> _.
      destruct (nth_error chunks k) as [chunk|] eqn:En.
      * rewrite build_prompt_ok. eauto.
      * apply nth_error_None in En. lia.
  - exists (Answer index). simpl. unfold answer. rewrite Hfl. simpl.
    rewrite Nat.eqb_refl. eauto.
Qed.

Lemma can_finish_within (m : nat) (st : state) :
  well_formed chunks st -> (events_left st <= m)%nat ->
  exists schedule st',
    exec self chunks replies schedule st = Some st' /\ gathered st' = true.
Proof.
  revert st. induction m as [|m IH]; intros st Hwf Hm.
  - exists [], st. split; [reflexivity|].
    unfold events_left in Hm. apply gathered_true.
    destruct (queue st), (in_flight st); simpl in Hm; try lia. tauto.
  - destruct (gathered st) eqn:Hg.
    + exists [], st. now split.
    + destruct (never_stuck Hwf Hg) as (ev & st1 & Hstep).
      destruct (IH st1) as (schedule & st' & He & Hg').
      * eapply step_well_formed; eauto.
      * apply step_events_left in Hstep. lia.
      * exists (ev :: schedule), st'. simpl. rewrite Hstep. now split.
Qed.

Lemma exec_app (s1 s2 : list event) (st : state) :
  exec self chunks replies (s1 ++ s2) st =
  match exec self chunks replies s1 st with
  | Some st1 => exec self chunks replies s2 st1
  | None => None
  end.
Proof.
  revert st. induction s1 as [|ev s1 IH]; intros st; simpl; [reflexivity|].
  destruct (step self chunks replies ev st); [apply IH|reflexivity].
Qed.

(** Every schedule run so far extends to one after which [gather]
    returns. *)
Lemma can_finish (schedule : list event) (st : state) :
  exec self chunks replies schedule (start chunks) = Some st ->
  exists rest st',
    exec self chunks replies (schedule ++ rest) (start chunks) = Some st' /\
    gathered st' = true.
Proof.
  intros He.
  destruct (@can_finish_within (events_left st) st) as (rest & st' & Hr & Hg).
  - eapply exec_well_formed; eauto.
  - lia.
  - exists rest, st'. rewrite exec_app, He. now split.
Qed.

Lemma process_chunks_some (schedule : list event) (fx : effects) :
  process_chunks self chunks replies schedule = Some fx ->
  exists st,
    exec self chunks replies schedule (start chunks) = Some st /\
    gathered st = true /\
    fx = {| result := combine self (summaries st);
            emitted := signals st;
            sent := requests st |}.
Proof.
  unfold process_chunks.
  destruct (exec self chunks replies schedule (start chunks)) as [st|];
    [|discriminate].
  destruct (gathered st) eqn:Hg; [|discriminate].
  intros H. injection H as <-. eauto.
Qed.

(** [process_chunks] returns under some schedule. *)
Lemma process_chunks_returns :
  exists schedule fx, process_chunks self chunks replies schedule = Some fx.
Proof.
  destruct (@can_finish [] (start chunks) eq_refl) as (rest & st & He & Hg).
  simpl in He. exists rest. unfold process_chunks. rewrite He, Hg. eauto.
Qed.

End ChunkFacts.

(** ** What the worker sends *)

Section RunFacts.

Variable self : worker.

Lemma process_full_text_sent (text : text_data_t) (r : reply) (req : request) :
  In req (sent (process_full_text self text r)) ->
  req = chat_request self (system_prompt self) text.
Proof.
  unfold process_full_text. rewrite build_prompt_ok.
  destruct r; simpl; intros [H|[]]; now symmetry.
Qed.

Lemma process_chunks_sent (chunks : list text_data_t) (replies : nat -> reply)
  (schedule : list event) (fx : effects) (req : request) :
  process_chunks self chunks replies schedule = Some fx ->
  In req (sent fx) ->
  exists chunk, req = chat_request self (system_prompt self) chunk.
Proof.
  intros H Hin. apply process_chunks_some in H as (st & He & _ & ->).
  apply exec_well_addressed in He as [Hall _].
  simpl in Hin. rewrite Forall_forall in Hall. now apply Hall.
Qed.

Lemma option_map_finish (o : option effects) (fx : effects) :
  option_map finish o = Some fx -> exists fx0, o = Some fx0 /\ fx = finish fx0.
Proof. destruct o as [fx0|]; simpl; [|discriminate]. intros H. injection H as <-. eauto. Qed.

(** Every call carries the prompt [system_prompt] and the sampling options
    of [chat_request]. *)
Lemma sends_shape (req : request) :
  sends self req -> exists content, req = chat_request self (system_prompt self) content.
Proof.
  intros (replies & schedule & fx & Hrun & Hin). unfold run in Hrun.
  destruct (text_data self) as [text|chunks|] eqn:Ht;
    destruct (is_chunked self) eqn:Hc.
  - apply option_map_finish in Hrun as (fx0 & H0 & ->).
    eapply process_chunks_sent; eauto.
  - injection Hrun as <-. simpl in Hin.
    apply process_full_text_sent in Hin. eauto.
  - apply option_map_finish in Hrun as (fx0 & H0 & ->).
    eapply process_chunks_sent; eauto.
  - apply option_map_finish in Hrun as (fx0 & H0 & ->).
    eapply process_chunks_sent; eauto.
  - apply option_map_finish in Hrun as (fx0 & H0 & ->).
    eapply process_chunks_sent; eauto.
  - injection Hrun as <-. destruct Hin.
Qed.

(** [run] returns under some schedule, whatever the calls answer. *)
Lemma run_returns (replies : nat -> reply) :
  exists schedule fx, run self replies schedule = Some fx.
Proof.
  unfold run.
  destruct (text_data self) as [text|chunks|]; destruct (is_chunked self);
    try (exists []; eauto; fail).
  - destruct (process_chunks_returns self [TextStr text] replies)
      as (schedule & fx & H).
    exists schedule. rewrite H. simpl. eauto.
  - destruct (process_chunks_returns self (map TextStr chunks) replies)
      as (schedule & fx & H).
    exists schedule. rewrite H. simpl. eauto.
  - destruct (process_chunks_returns self (map TextStr chunks) replies)
      as (schedule & fx & H).
    exists schedule. rewrite H. simpl. eauto.
  - destruct (process_chunks_returns self [TextOther] replies)
      as (schedule & fx & H).
    exists schedule. rewrite H. simpl. eauto.
Qed.

(** A run over a list of chunks is [process_chunks] followed by
    [finished_signal]. *)
Lemma run_list (cs : list str) (replies : nat -> reply)
  (schedule : list event) (fx : effects) :
  text_data self = TextList cs ->
  run self replies schedule = Some fx ->
  exists fx0,
    process_chunks self (map TextStr cs) replies schedule = Some fx0 /\
    fx = finish fx0.
Proof.
  intros Ht. unfold run. rewrite Ht.
  destruct (is_chunked self); apply option_map_finish.
Qed.

End RunFacts.

(** ** The segmenter: size ceiling and round trip *)

Section SegmenterProperties.

(** C2: a chunk returned by the segmenter is no longer than
    [max_chunk_size], unless it holds no space (it is a single word) and is
    itself longer than [max_chunk_size].  Holds for every [max_chunk_size],
    the positive ones among them. *)
Theorem chunk_within_ceiling_or_single_word
  (text : str) (max_chunk_size : Z) (chunk : str) :
  In chunk (split_text_into_chunks text max_chunk_size) ->
  (len chunk <= max_chunk_size)%Z \/
  (~ In space chunk /\ (max_chunk_size < len chunk)%Z).
Proof.
  intros Hin. unfold split_text_into_chunks in Hin.
  pose proof (@sentences_inv max_chunk_size
                (sentences_of (normalize_breaks text)) ([], [])) as Hinv.
  destruct (fold_left (sentence_step max_chunk_size)
              (sentences_of (normalize_breaks text)) ([], []))
    as [chunks cur].
  destruct Hinv as [Hc Hcur].
  { split; [constructor|apply current_ok_nil]. }
  simpl in Hc, Hcur.
  pose proof (flush_fits Hc Hcur) as Hall.
  rewrite Forall_forall in Hall. destruct (Hall chunk Hin) as [H|H].
  - now left.
  - destruct (Z.le_gt_cases (len chunk) max_chunk_size); [now left|].
    right. split; [exact H|lia].
Qed.

Lemma chunk_within_ceiling_or_single_word_witness :
  (len (lit "bbbbbbbbbbb") <= 6)%Z \/
  (~ In space (lit "bbbbbbbbbbb") /\ (6 < len (lit "bbbbbbbbbbb"))%Z).
Proof.
  apply (@chunk_within_ceiling_or_single_word
           (lit "aaaa bbbbbbbbbbb  cc dd ee. ff") 6 (lit "bbbbbbbbbbb")).
  vm_compute. right. left. reflexivity.
Defined.


(** Chunks are concatenated with nothing between them, so that under the
    collapsing reading the words at a chunk boundary run together, even for
    a text whose every sentence ends with the delimiter. *)
Lemma concatenation_joins_boundary_words :
  split_text_into_chunks (lit "Sentence one. Sentence two. ") 15 =
    [lit "Sentence one."; lit "Sentence two."] /\
  collapse_ws (concat (split_text_into_chunks
                         (lit "Sentence one. Sentence two. ") 15))
    <> collapse_ws (lit "Sentence one. Sentence two. ").
Proof. split; [vm_compute; reflexivity|vm_compute; discriminate]. Qed.




End SegmenterProperties.

(** ** The prompt and the sampling options *)

Section PromptProperties.

Lemma get_professor (self : worker) :
  get (prompts self) professor summary_prompt =
  if truthy (custom_prompt self) then custom_prompt self else professor_prompt.
Proof. reflexivity. Qed.

Lemma system_prompt_other (self : worker) :
  prompt_type self <> professor ->
  system_prompt self = get (prompts self) (prompt_type self) summary_prompt.
Proof.
  intros H. unfold system_prompt. apply eqb_neq in H.
  fold professor. rewrite H, andb_false_r. reflexivity.
Qed.

Lemma get_other (self : worker) (key : str) :
  key <> professor ->
  get (prompts self) key summary_prompt = get fixed_prompts key summary_prompt.
Proof.
  intros H. unfold get, prompts, fixed_prompts, lookup.
  destruct (Str.eqb (lit "summary") key); [reflexivity|].
  destruct (Str.eqb (lit "brief") key); [reflexivity|].
  destruct (Str.eqb (lit "qna") key); [reflexivity|].
  destruct (Str.eqb (lit "questions") key); [reflexivity|].
  assert (E : Str.eqb (lit "professor") key = false)
    by (apply eqb_neq; unfold professor in H; congruence).
  now rewrite E.
Qed.

(** C7: the instruction of every call is a clause followed by a base.  For
    [professor] the base is [custom_prompt] when that is non-empty (the
    fixed [professor] instruction when it is empty), and the clause is ["Answer length: {answer_length}. "] when [answer_length] is
    non-empty.  For every other content type there is no clause and the
    base is the fixed instruction of the type, whatever [answer_length] and
    [custom_prompt] are. *)
Theorem instruction_rules (self : worker) (req : request) :
  sends self req ->
  exists clause base,
    system_content req = clause ++ base /\
    build_prompt self = Ok (clause ++ base) /\
    base_prompt self = Ok base /\
    (prompt_type self = professor ->
       (truthy (custom_prompt self) = true -> base = custom_prompt self) /\
       (truthy (custom_prompt self) = false -> base = professor_prompt) /\
       (truthy (answer_length self) = true -> clause = length_clause self)) /\
    (prompt_type self <> professor ->
       clause = [] /\
       base = get fixed_prompts (prompt_type self) summary_prompt) /\
    (prompt_type self = lit "summary" -> system_content req = summary_prompt) /\
    (prompt_type self = lit "brief" -> system_content req = brief_prompt) /\
    (prompt_type self = lit "qna" -> system_content req = qna_prompt) /\
    (prompt_type self = lit "questions" ->
       system_content req = questions_prompt).
Proof.
  intros Hs. apply sends_shape in Hs as (content & ->). simpl.
  exists (if truthy (answer_length self) && Str.eqb (prompt_type self) professor
          then length_clause self else []),
         (get (prompts self) (prompt_type self) summary_prompt).
  assert (Hsys : system_prompt self =
                 (if truthy (answer_length self) &&
                     Str.eqb (prompt_type self) professor
                  then length_clause self else [])
                 ++ get (prompts self) (prompt_type self) summary_prompt).
  { unfold system_prompt, length_clause. fold professor.
    destruct (truthy (answer_length self) &&
              Str.eqb (prompt_type self) professor); [|reflexivity].
    now rewrite <- !app_assoc. }
  split; [exact Hsys|].
  split; [now rewrite build_prompt_ok, Hsys|].
  split; [apply base_prompt_ok|].
  split; [|split].
  - intros Hp. rewrite Hp, get_professor, eqb_refl, andb_true_r.
    split; [|split]; now intros ->.
  - intros Hp. split.
    + apply eqb_neq in Hp. now rewrite Hp, andb_false_r.
    + now apply get_other.
  - repeat split; intros Hp;
      (rewrite system_prompt_other by (rewrite Hp; discriminate));
      rewrite Hp; reflexivity.
Qed.

Lemma asking_sends :
  sends asking
    (chat_request asking
       (lit "Answer length: 1-2 sentences. What do cells do?")
       (TextStr (lit "Cells divide."))).
Proof.
  exists (fun _ => Ok (lit "They divide.")), [].
  eexists. split; [reflexivity|]. left. reflexivity.
Defined.

Lemma instruction_rules_witness :
  exists clause base,
    lit "Answer length: 1-2 sentences. What do cells do?" = clause ++ base /\
    base = lit "What do cells do?" /\
    clause = lit "Answer length: 1-2 sentences. ".
Proof.
  destruct (instruction_rules asking_sends)
    as (clause & base & Heq & _ & _ & Hprof & _).
  destruct (Hprof eq_refl) as (Hbase & _ & Hclause).
  exists clause, base. split; [exact Heq|].
  split; [apply Hbase; reflexivity|apply Hclause; reflexivity].
Defined.

(** C8: every call is sent with temperature 0.4 when the content type is
    [summary] or [brief], and with 0.7 when it is [qna], [questions] or
    [professor]. *)
Theorem temperature_by_content_type (self : worker) (req : request) :
  sends self req ->
  ((prompt_type self = lit "summary" \/ prompt_type self = lit "brief") ->
     temperature req = Lit.f0_4) /\
  ((prompt_type self = lit "qna" \/ prompt_type self = lit "questions" \/
    prompt_type self = professor) ->
     temperature req = Lit.f0_7).
Proof.
  intros Hs. apply sends_shape in Hs as (content & ->). simpl.
  unfold temperature_of.
  split; intros H; repeat destruct H as [H|H]; rewrite H; reflexivity.
Qed.

Lemma temperature_by_content_type_witness :
  temperature (chat_request asking
                 (lit "Answer length: 1-2 sentences. What do cells do?")
                 (TextStr (lit "Cells divide."))) = Lit.f0_7.
Proof.
  apply (proj2 (temperature_by_content_type asking_sends)).
  right. right. reflexivity.
Defined.

Lemma get_unknown (self : worker) :
  ~ In (prompt_type self) known_types ->
  get (prompts self) (prompt_type self) summary_prompt = summary_prompt.
Proof.
  intros H. unfold known_types in H. simpl in H.
  assert (E : forall k, (k = prompt_type self -> False) ->
                        Str.eqb k (prompt_type self) = false)
    by (intros k Hk; now apply eqb_neq).
  unfold get, prompts, lookup, professor in *.
  rewrite !E by tauto. reflexivity.
Qed.

(** C10: with a content type outside the five known ones, building the
    prompt raises nothing and gives the [summary] instruction, [run]
    returns, and every call carries the [summary] instruction with
    temperature 0.7. *)
Theorem unknown_content_type (self : worker) :
  ~ In (prompt_type self) known_types ->
  build_prompt self = Ok summary_prompt /\
  (forall replies, exists schedule fx, run self replies schedule = Some fx) /\
  forall req, sends self req ->
    system_content req = summary_prompt /\ temperature req = Lit.f0_7.
Proof.
  intros H.
  assert (Hsys : system_prompt self = summary_prompt).
  { rewrite system_prompt_other, get_unknown; [reflexivity|exact H|].
    intros Hp. apply H. unfold known_types. rewrite Hp. simpl. tauto. }
  split; [now rewrite build_prompt_ok, Hsys|].
  split; [apply run_returns|].
  intros req Hs. apply sends_shape in Hs as (content & ->). simpl.
  split; [exact Hsys|].
  unfold temperature_of, existsb.
  assert (E : forall k, ~ In k known_types -> In k [lit "summary"; lit "brief"]
                        -> False)
    by (unfold known_types; simpl; tauto).
  destruct (Str.eqb (prompt_type self) (lit "summary")) eqn:E1.
  { apply eqb_eq in E1. exfalso. apply (E _ H). rewrite E1. simpl. tauto. }
  destruct (Str.eqb (prompt_type self) (lit "brief")) eqn:E2.
  { apply eqb_eq in E2. exfalso. apply (E _ H). rewrite E2. simpl. tauto. }
  reflexivity.
Qed.

Lemma unknown_content_type_witness :
  build_prompt outlining = Ok summary_prompt /\
  option_map sent (run outlining (fun _ => Ok (lit "Cells.")) []) =
  Some [chat_request outlining summary_prompt (TextStr (lit "Cells divide."))].
Proof.
  split.
  - apply (@unknown_content_type outlining).
    vm_compute. intros H. repeat destruct H as [H|H]; discriminate || exact H.
  - vm_compute. reflexivity.
Defined.

End PromptProperties.

(** ** The fan-out over chunks *)

Section ChunkProperties.

(** C1 fails on the code: the parts are joined in the order in which the
    calls ended.  With the same chunks and the same replies, the final text
    is ["Summary 1\n\nSummary 2"] when call 0 ends first and
    ["Summary 2\n\nSummary 1"] when call 1 ends first. *)
Theorem final_text_follows_completion_order :
  option_map result (run two_chunks two_replies in_order) =
    Some (lit "Summary 1" ++ [LF; LF] ++ lit "Summary 2") /\
  option_map result (run two_chunks two_replies out_of_order) =
    Some (lit "Summary 2" ++ [LF; LF] ++ lit "Summary 1").
Proof. split; vm_compute; reflexivity. Qed.

(** C6 fails on the code: the value emitted is computed from the index of
    the task, not from the number of tasks ended, so that when call 1 ends
    before call 0 the values are 100 then 50; and a task whose call raises
    emits no progress at all. *)
Theorem progress_follows_index :
  option_map (fun fx => progress_values (emitted fx))
    (run two_chunks two_replies out_of_order) = Some [100; 50]%Z /\
  option_map (fun fx => progress_values (emitted fx))
    (run two_chunks (fun _ => Raise (lit "timed out")) in_order) = Some [].
Proof. split; vm_compute; reflexivity. Qed.

(** C5: after every schedule at most two calls are in flight: the free
    slots and the calls in flight add up to two, and the calls in flight
    are the requests sent whose task has not yet appended its result.  An
    entry takes a slot before it sends its request; the end of a call gives
    the slot back, whatever the call answered. *)
Theorem at_most_two_in_flight
  (self : worker) (chunks : list text_data_t) (replies : nat -> reply)
  (schedule : list event) (st : state) :
  exec self chunks replies schedule (start chunks) = Some st ->
  (length (in_flight st) <= 2)%nat /\
  (semaphore st + length (in_flight st) = 2)%nat /\
  (length (requests st) - length (summaries st) = length (in_flight st))%nat /\
  (forall st', step self chunks replies Enter st = Some st' ->
     semaphore st = S (semaphore st') /\
     length (in_flight st') = S (length (in_flight st)) /\
     length (requests st') = S (length (requests st))) /\
  (forall index st', step self chunks replies (Answer index) st = Some st' ->
     semaphore st' = S (semaphore st) /\
     length (in_flight st) = S (length (in_flight st'))).
Proof.
  intros He.
  pose proof (exec_well_formed _ _ _ _ He) as [Hslots _].
  pose proof (exec_well_addressed _ _ _ _ He) as [_ Hreq].
  split; [lia|]. split; [exact Hslots|]. split; [lia|]. split.
  - intros st' H. simpl in H.
    apply enter_some in H as (index & chunk & _ & _ & Hsem & Hfl & _ & _ & Hr).
    rewrite Hfl, Hr, !length_app. simpl. split; [exact Hsem|split; lia].
  - intros index st' H. simpl in H.
    apply answer_some in H as (Ht & _ & Hsem & _).
    apply take_out_perm, Permutation_length in Ht. simpl in Ht.
    split; [exact Hsem|exact Ht].
Qed.

Lemma at_most_two_in_flight_witness :
  exists st,
    exec two_chunks three_chunks two_replies [Enter; Enter] (start three_chunks)
      = Some st /\
    length (in_flight st) = 2%nat /\
    step two_chunks three_chunks two_replies Enter st = None.
Proof.
  eexists. split; [vm_compute; reflexivity|].
  split; [|vm_compute; reflexivity].
  apply Nat.le_antisymm; [|vm_compute; lia].
  eapply (@at_most_two_in_flight two_chunks three_chunks two_replies
            [Enter; Enter]).
  vm_compute. reflexivity.
Defined.

(** C9: when [process_chunks] returns, its result is the contributions of
    the chunks, one for each chunk and none left out, joined with
    ["\n\n--- SECTION BREAK ---\n\n"] when the content type is [summary] and
    with ["\n\n"] for every other content type. *)
Theorem join_by_content_type
  (self : worker) (chunks : list text_data_t) (replies : nat -> reply)
  (schedule : list event) (fx : effects) :
  process_chunks self chunks replies schedule = Some fx ->
  exists parts,
    Permutation parts (map (contribution replies) (seq 0 (length chunks))) /\
    length parts = length chunks /\
    (prompt_type self = lit "summary" ->
       result fx = join ([LF; LF] ++ lit "--- SECTION BREAK ---" ++ [LF; LF])
                     parts) /\
    (prompt_type self <> lit "summary" -> result fx = join [LF; LF] parts).
Proof.
  intros H. apply process_chunks_some in H as (st & He & Hg & ->).
  exists (summaries st).
  pose proof (gathered_summaries _ _ _ _ He Hg) as Hperm.
  split; [exact Hperm|]. split.
  - apply Permutation_length in Hperm.
    now rewrite Hperm, length_map, length_seq.
  - simpl. unfold combine. split; intros Hp.
    + rewrite Hp. reflexivity.
    + apply eqb_neq in Hp. now rewrite Hp.
Qed.

Lemma join_by_content_type_witness :
  exists parts,
    Permutation parts [lit "Summary 1"; lit "Summary 2"; lit "Summary 3"] /\
    option_map result
      (process_chunks two_chunks three_chunks two_replies
         [Enter; Enter; Answer 1; Enter; Answer 2; Answer 0]) =
    Some (join [LF; LF] parts).
Proof.
  pose proof (@join_by_content_type two_chunks three_chunks two_replies
                [Enter; Enter; Answer 1; Enter; Answer 2; Answer 0]) as H.
  destruct (process_chunks two_chunks three_chunks two_replies
              [Enter; Enter; Answer 1; Enter; Answer 2; Answer 0])
    as [fx|] eqn:E; [|vm_compute in E; discriminate E].
  destruct (H fx eq_refl) as (parts & Hperm & _ & _ & Hjoin).
  exists parts. split; [exact Hperm|].
  simpl. f_equal. apply Hjoin. vm_compute. discriminate.
Defined.

(** A part of a join stands in the joined text as it is. *)
Lemma join_holds_part (sep : str) (parts : list str) (p : str) :
  In p parts -> exists before after, join sep parts = before ++ p ++ after.
Proof.
  induction parts as [|q qs IH]; [contradiction|].
  intros [->|Hin].
  - destruct qs as [|q2 qs'].
    + exists [], []. simpl. now rewrite app_nil_r.
    + exists [], (sep ++ join sep (q2 :: qs')).
      now rewrite join_cons by discriminate.
  - destruct qs as [|q2 qs']; [contradiction|].
    destruct (IH Hin) as (before & after & Hj).
    exists (q ++ sep ++ before), after.
    rewrite join_cons by discriminate. rewrite Hj.
    now rewrite <- !app_assoc.
Qed.

(** C4: when the call of exactly one chunk [k] raises and every other call
    returns, [run] returns under some schedule and no schedule leaves the
    tasks stuck.  Whenever it returns, after two events per chunk, its
    result is one part per chunk, joined with
    ["\n\n--- SECTION BREAK ---\n\n"] for a summary and with ["\n\n"]
    otherwise: the part of chunk [k] is the message
    ["[ERROR] Processing chunk {k+1}: {e}"], which starts with ["[ERROR]"],
    and the part of any other chunk is the text its call returned.  So the
    part of every chunk stands in the final text as it is, the message of
    the failing one and the text of every other one; the result goes out
    with [finished_signal]. *)
Theorem one_failing_unit_is_contained
  (self : worker) (cs : list str) (replies : nat -> reply)
  (texts : nat -> str) (k : nat) (e : str) :
  text_data self = TextList cs ->
  (k < length cs)%nat ->
  replies k = Raise e ->
  (forall i, i <> k -> replies i = Ok (texts i)) ->
  let part i := if Nat.eqb i k then chunk_error_msg k e else texts i in
  starts_with (lit "[ERROR]") (part k) = true /\
  part k = lit "[ERROR] Processing chunk " ++ Str.of_nat (k + 1)
           ++ lit ": " ++ e /\
  (exists schedule fx, run self replies schedule = Some fx) /\
  (forall schedule st,
     exec self (map TextStr cs) replies schedule (start (map TextStr cs))
       = Some st ->
     gathered st = false ->
     exists ev st', step self (map TextStr cs) replies ev st = Some st') /\
  (forall schedule fx,
     run self replies schedule = Some fx ->
     length schedule = (2 * length cs)%nat /\
     last (emitted fx) (progress 0) = finished_signal (result fx) /\
     (exists parts,
        Permutation parts (map part (seq 0 (length cs))) /\
        (prompt_type self = lit "summary" ->
         result fx =
           join ([LF; LF] ++ lit "--- SECTION BREAK ---" ++ [LF; LF]) parts) /\
        (prompt_type self <> lit "summary" ->
         result fx = join [LF; LF] parts)) /\
     (exists before after,
        result fx = before ++ chunk_error_msg k e ++ after) /\
     (forall i, (i < length cs)%nat -> i <> k ->
        exists before after, result fx = before ++ texts i ++ after)).
Proof.
  intros Ht Hk Hraise Hok part.
  assert (Hpart : forall i, contribution replies i = part i).
  { intros i. unfold contribution, part.
    destruct (Nat.eqb_spec i k) as [->|Hne].
    - now rewrite Hraise.
    - now rewrite (Hok i Hne). }
  split; [|split; [|split; [|split]]].
  - unfold part. rewrite Nat.eqb_refl. reflexivity.
  - unfold part. rewrite Nat.eqb_refl. reflexivity.
  - apply run_returns.
  - intros schedule st He Hg.
    apply never_stuck; [|exact Hg]. eapply exec_well_formed; eauto.
  - intros schedule fx Hrun.
    destruct (run_list _ _ _ Ht Hrun) as (fx0 & Hpc & ->).
    apply process_chunks_some in Hpc as (st & He & Hg & ->).
    pose proof (gathered_summaries _ _ _ _ He Hg) as Hperm.
    rewrite length_map in Hperm.
    rewrite (map_ext _ _ Hpart) in Hperm.
    assert (Hin : forall i, (i < length cs)%nat -> In (part i) (summaries st)).
    { intros i Hi. apply (Permutation_in _ (Permutation_sym Hperm)).
      apply in_map, in_seq. lia. }
    assert (Hholds : forall i, (i < length cs)%nat ->
              exists before after,
                combine self (summaries st) = before ++ part i ++ after).
    { intros i Hi. unfold combine.
      destruct (Str.eqb (prompt_type self) (lit "summary"));
        apply join_holds_part, Hin, Hi. }
    split; [|split; [|split; [|split]]].
    + pose proof (exec_events_left _ _ _ _ _ He) as Hl.
      apply gathered_true in Hg as [Hq Hf].
      unfold events_left in Hl. rewrite Hq, Hf in Hl. simpl in Hl.
      rewrite length_seq, length_map in Hl. lia.
    + simpl. apply last_last.
    + exists (summaries st). split; [exact Hperm|].
      simpl. unfold combine. split; intros Hp.
      * rewrite Hp. reflexivity.
      * apply eqb_neq in Hp. now rewrite Hp.
    + destruct (Hholds k Hk) as (before & after & Hres).
      exists before, after. simpl. rewrite Hres.
      unfold part. now rewrite Nat.eqb_refl.
    + intros i Hi Hne.
      destruct (Hholds i Hi) as (before & after & Hres).
      exists before, after. simpl. rewrite Hres.
      unfold part. apply Nat.eqb_neq in Hne. now rewrite Hne.
Qed.

Lemma one_failing_unit_is_contained_witness :
  exists final,
    option_map result
      (run three_parts second_fails
         [Enter; Enter; Answer 1; Enter; Answer 2; Answer 0]) = Some final /\
    (exists parts,
       Permutation parts
         [lit "OK:1"; lit "[ERROR] Processing chunk 2: connection refused";
          lit "OK:3"] /\
       final =
         join ([LF; LF] ++ lit "--- SECTION BREAK ---" ++ [LF; LF]) parts) /\
    (exists before after,
       final =
         before ++ lit "[ERROR] Processing chunk 2: connection refused"
         ++ after) /\
    (exists before after, final = before ++ lit "OK:1" ++ after) /\
    (exists before after, final = before ++ lit "OK:3" ++ after).
Proof.
  assert (Hok : forall i, i <> 1%nat ->
                  second_fails i = Ok (lit "OK:" ++ Str.of_nat (i + 1))).
  { intros i Hi. unfold second_fails.
    destruct (Nat.eqb_spec i 1); [contradiction|reflexivity]. }
  assert (Hk : (1 < length [lit "One."; lit "Two."; lit "Three."])%nat)
    by (simpl; lia).
  destruct (@one_failing_unit_is_contained three_parts
              [lit "One."; lit "Two."; lit "Three."] second_fails
              (fun i => lit "OK:" ++ Str.of_nat (i + 1)) 1
              (lit "connection refused") eq_refl Hk eq_refl Hok)
    as (_ & _ & _ & _ & Hall).
  specialize (Hall [Enter; Enter; Answer 1; Enter; Answer 2; Answer 0]).
  destruct (run three_parts second_fails
              [Enter; Enter; Answer 1; Enter; Answer 2; Answer 0])
    as [fx|] eqn:E; [|vm_compute in E; discriminate E].
  destruct (Hall fx eq_refl)
    as (_ & _ & (parts & Hperm & Hsum & _) & Herr & Hothers).
  exists (result fx). split; [reflexivity|].
  split; [exists parts; split; [exact Hperm|exact (Hsum eq_refl)]|].
  split; [exact Herr|].
  split.
  - apply (Hothers 0%nat); [simpl; lia|discriminate].
  - apply (Hothers 2%nat); [simpl; lia|discriminate].
Defined.

End ChunkProperties.

(** ** More on the string operations *)

Section MoreStrFacts.

Lemma lstrip_blank (s : str) : blank s -> lstrip s = [].
Proof.
  induction 1 as [|c s Hc _ IH]; simpl; [reflexivity|]. now rewrite Hc.
Qed.

Lemma strip_blank (s : str) : blank s -> strip s = [].
Proof.
  intros H. unfold strip, rstrip.
  rewrite (@lstrip_blank (rev s)) by now apply Forall_rev.
  reflexivity.
Qed.

(** What [lstrip] leaves starts with a character that is no whitespace. *)
Lemma lstrip_head (s : str) (c : char) (r : str) :
  lstrip s = c :: r -> isspace c = false.
Proof.
  induction s as [|d s IH]; simpl; [discriminate|].
  destruct (isspace d) eqn:E; [exact IH|].
  intros H. injection H as <- _. exact E.
Qed.

Lemma lstrip_fixed (c : char) (s : str) :
  isspace c = false -> lstrip (c :: s) = c :: s.
Proof. intros H. simpl. now rewrite H. Qed.

Lemma lstrip_lstrip (s : str) : lstrip (lstrip s) = lstrip s.
Proof.
  destruct (lstrip s) as [|c r] eqn:E; [reflexivity|].
  apply lstrip_fixed. eapply lstrip_head; eauto.
Qed.

Lemma lstrip_snoc (l : str) (c : char) :
  lstrip (l ++ [c]) =
  match lstrip l with
  | [] => if isspace c then [] else [c]
  | _ :: _ => lstrip l ++ [c]
  end.
Proof.
  induction l as [|d l IH]; simpl; [reflexivity|].
  destruct (isspace d); [exact IH|reflexivity].
Qed.

Lemma rstrip_cons (c : char) (s : str) :
  rstrip (c :: s) =
  match rstrip s with
  | [] => if isspace c then [] else [c]
  | _ :: _ => c :: rstrip s
  end.
Proof.
  unfold rstrip. cbn [rev]. rewrite lstrip_snoc.
  destruct (lstrip (rev s)) as [|d r] eqn:E.
  - now destruct (isspace c).
  - rewrite rev_app_distr. cbn [rev app].
    destruct (rev r ++ [d]) eqn:E2; [|reflexivity].
    now destruct (rev r).
Qed.

Lemma rstrip_snoc_fixed (s : str) (c : char) :
  isspace c = false -> rstrip (s ++ [c]) = s ++ [c].
Proof.
  intros H. unfold rstrip. rewrite rev_app_distr. simpl. rewrite H.
  simpl. now rewrite rev_involutive.
Qed.

Lemma rstrip_rstrip (s : str) : rstrip (rstrip s) = rstrip s.
Proof.
  unfold rstrip. now rewrite rev_involutive, lstrip_lstrip.
Qed.

(** Stripping on the left keeps a string stripped on the right. *)
Lemma rstrip_lstrip_fixed (s : str) :
  rstrip s = s -> rstrip (lstrip s) = lstrip s.
Proof.
  induction s as [|c s IH]; [reflexivity|].
  intros H. simpl. destruct (isspace c) eqn:E; [|exact H].
  apply IH. rewrite rstrip_cons in H.
  destruct (rstrip s) as [|d r].
  - rewrite E in H. discriminate.
  - now injection H.
Qed.

Lemma strip_strip (s : str) : strip (strip s) = strip s.
Proof.
  unfold strip.
  rewrite (rstrip_lstrip_fixed (rstrip_rstrip s)).
  apply lstrip_lstrip.
Qed.

(** A stripped string that is not empty starts with a character that is no
    whitespace. *)
Lemma strip_head (s : str) (c : char) (r : str) :
  strip s = c :: r -> isspace c = false.
Proof. unfold strip. apply lstrip_head. Qed.

(** The pieces of a string hold characters of the string only. *)
Lemma split_from_In (sep : str) (c : char) (s : str) :
  forall skip p, In p (split_from sep skip s) -> In c p -> In c s.
Proof.
  induction s as [|d s IH]; intros skip p Hp Hc.
  - simpl in Hp. destruct Hp as [<-|[]]. exact Hc.
  - destruct skip as [|k]; [|right; exact (IH k p Hp Hc)].
    rewrite split_from_cons in Hp.
    destruct (starts_with sep (d :: s)).
    + destruct Hp as [<-|Hp]; [destruct Hc|].
      right. exact (IH _ p Hp Hc).
    + pose proof (IH 0%nat) as IH0.
      destruct (split_from sep 0 s) as [|q qs].
      * destruct Hp as [<-|[]]. destruct Hc as [<-|[]]. now left.
      * destruct Hp as [<-|Hp].
        -- destruct Hc as [<-|Hc]; [now left|].
           right. apply (IH0 q); [now left|exact Hc].
        -- right. apply (IH0 p); [now right|exact Hc].
Qed.

Lemma split_In (sep : str) (c : char) (s p : str) :
  In p (split sep s) -> In c p -> In c s.
Proof. apply split_from_In. Qed.

(** A string without a period is one piece. *)
Lemma split_no_dot (s : str) :
  ~ In dot s -> split [dot; space] s = [s].
Proof.
  unfold split. induction s as [|c s IH]; intros H; [reflexivity|].
  rewrite split_from_cons.
  assert (E : starts_with [dot; space] (c :: s) = false).
  { cbn [starts_with]. destruct (N.eqb_spec dot c) as [<-|Hne]; [|reflexivity].
    exfalso. apply H. now left. }
  rewrite E, IH; [reflexivity|].
  intros Hin. apply H. now right.
Qed.

Lemma replace_In (old new c : char) (s : str) :
  In c (replace old new s) -> (In c s /\ c <> old) \/ c = new.
Proof.
  unfold replace. rewrite in_map_iff. intros (d & Hd & Hin). revert Hd.
  destruct (N.eqb_spec d old) as [Heq|Hne]; intros <-; [now right|].
  left. now split.
Qed.

Lemma blank_replace_space (old : char) (s : str) :
  blank s -> blank (replace old space s).
Proof.
  unfold blank, replace. intros H. apply Forall_map.
  eapply Forall_impl; [|exact H]. intros c Hc. simpl.
  now destruct (c =? old)%N.
Qed.

End MoreStrFacts.

(** ** More on the segmenter *)

Section SegmenterMore.

Variable max_chunk_size : Z.

Lemma sentences_of_like (text : str) :
  Forall sentence_like (sentences_of text).
Proof.
  unfold sentences_of. apply Forall_map. apply Forall_forall.
  intros p Hp. apply filter_In in Hp as [_ Ht]. split.
  - intros E. rewrite E in Ht. discriminate.
  - apply strip_strip.
Qed.

Lemma flush_flushed (chunks : list str) (cur : str) :
  Forall flushed chunks -> Forall flushed (flush chunks cur).
Proof.
  intros H. unfold flush. destruct (truthy (strip cur)) eqn:E; [|exact H].
  apply Forall_app. split; [exact H|].
  constructor; [|constructor]. now exists cur.
Qed.

Lemma words_flushed (words : list str) (st : list str * str) :
  Forall flushed (fst st) ->
  Forall flushed (fst (fold_left (word_step max_chunk_size) words st)).
Proof.
  revert st. induction words as [|w ws IH]; intros [chunks cur] H; [exact H|].
  simpl. apply IH. simpl in H.
  destruct (len cur + len w + 1 <=? max_chunk_size)%Z; simpl; [exact H|].
  now apply flush_flushed.
Qed.

Lemma sentence_step_flushed (st : list str * str) (sentence : str) :
  Forall flushed (fst st) ->
  Forall flushed (fst (sentence_step max_chunk_size st sentence)).
Proof.
  destruct st as [chunks cur]. simpl. intros H.
  destruct (len (cur ++ sentence ++ [dot; space]) <=? max_chunk_size)%Z;
    [exact H|].
  destruct (len (sentence ++ [dot; space]) <=? max_chunk_size)%Z;
    [now apply flush_flushed|].
  pose proof (@words_flushed (split [space] (sentence ++ [dot; space]))
                (flush chunks cur, []) (flush_flushed cur H)) as Hw.
  destruct (fold_left (word_step max_chunk_size)
              (split [space] (sentence ++ [dot; space]))
              (flush chunks cur, [])) as [chunks' cur'].
  simpl in *. now apply flush_flushed.
Qed.

Lemma sentences_flushed (sentences : list str) (st : list str * str) :
  Forall flushed (fst st) ->
  Forall flushed
    (fst (fold_left (sentence_step max_chunk_size) sentences st)).
Proof.
  revert st. induction sentences as [|x xs IH]; intros st H; [exact H|].
  simpl. apply IH. now apply sentence_step_flushed.
Qed.

Lemma chunks_flushed (text : str) :
  Forall flushed (split_text_into_chunks text max_chunk_size).
Proof.
  unfold split_text_into_chunks.
  pose proof (@sentences_flushed (sentences_of (normalize_breaks text))
                ([], []) (Forall_nil _)) as H.
  destruct (fold_left (sentence_step max_chunk_size)
              (sentences_of (normalize_breaks text)) ([], []))
    as [chunks cur].
  now apply flush_flushed.
Qed.

End SegmenterMore.

Section SegmenterProperties2.

(** X1: a text of whitespace only, the empty text among them, gives no
    chunk. *)
Theorem blank_text_gives_no_chunk (text : str) (max_chunk_size : Z) :
  blank text -> split_text_into_chunks text max_chunk_size = [].
Proof.
  intros H.
  assert (Hb : blank (normalize_breaks text))
    by (unfold normalize_breaks; now do 2 apply blank_replace_space).
  unfold split_text_into_chunks, sentences_of.
  rewrite split_no_dot.
  - simpl. rewrite (strip_blank Hb). reflexivity.
  - intros Hin. unfold blank in Hb. rewrite Forall_forall in Hb.
    apply Hb in Hin. discriminate.
Qed.

Lemma blank_text_gives_no_chunk_witness :
  split_text_into_chunks ([space; LF; CR; 9%N; space]) 2500 = [].
Proof.
  apply blank_text_gives_no_chunk. repeat constructor.
Defined.

(** X2: every chunk is a stripped string that is not empty: no chunk
    starts or ends with whitespace. *)
Theorem chunks_are_stripped_and_not_empty
  (text : str) (max_chunk_size : Z) (chunk : str) :
  In chunk (split_text_into_chunks text max_chunk_size) ->
  chunk <> [] /\ strip chunk = chunk /\ lstrip chunk = chunk /\
  rstrip chunk = chunk.
Proof.
  intros Hin.
  pose proof (chunks_flushed max_chunk_size text) as H.
  rewrite Forall_forall in H. destruct (H chunk Hin) as (cur & -> & Ht).
  split; [|split; [|split]].
  - intros E. rewrite E in Ht. discriminate.
  - apply strip_strip.
  - unfold strip. apply lstrip_lstrip.
  - unfold strip. apply rstrip_lstrip_fixed, rstrip_rstrip.
Qed.

Lemma chunks_are_stripped_and_not_empty_witness :
  lit "Sentence two." <> [] /\
  strip (lit "Sentence two.") = lit "Sentence two." /\
  lstrip (lit "Sentence two.") = lit "Sentence two." /\
  rstrip (lit "Sentence two.") = lit "Sentence two.".
Proof.
  apply (@chunks_are_stripped_and_not_empty
           (lit "  Sentence one.  Sentence two.  ") 15).
  vm_compute. right. left. reflexivity.
Defined.

End SegmenterProperties2.

Section SegmenterChars.

Variable max_chunk_size : Z.
Variable allowed : char -> Prop.
Hypothesis allowed_dot : allowed dot.
Hypothesis allowed_space : allowed space.

Lemma strip_allowed (s : str) : Forall allowed s -> Forall allowed (strip s).
Proof.
  rewrite !Forall_forall. intros H c Hc. apply H. now apply strip_In.
Qed.

Lemma flush_allowed (chunks : list str) (cur : str) :
  Forall (Forall allowed) chunks -> Forall allowed cur ->
  Forall (Forall allowed) (flush chunks cur).
Proof.
  intros Hc Hcur. unfold flush. destruct (truthy (strip cur)); [|exact Hc].
  apply Forall_app. split; [exact Hc|].
  constructor; [now apply strip_allowed|constructor].
Qed.

Lemma word_step_allowed (st : list str * str) (word : str) :
  Forall allowed word -> all_chars allowed st ->
  all_chars allowed (word_step max_chunk_size st word).
Proof.
  destruct st as [chunks cur]. intros Hw [Hc Hcur]. simpl in *.
  assert (Hws : Forall allowed (word ++ [space])).
  { apply Forall_app. split; [exact Hw|]. now constructor. }
  destruct (len cur + len word + 1 <=? max_chunk_size)%Z; split; simpl.
  - exact Hc.
  - apply Forall_app. now split.
  - now apply flush_allowed.
  - exact Hws.
Qed.

Lemma words_allowed (words : list str) (st : list str * str) :
  Forall (Forall allowed) words -> all_chars allowed st ->
  all_chars allowed (fold_left (word_step max_chunk_size) words st).
Proof.
  revert st. induction words as [|w ws IH]; intros st Hws Hst; [exact Hst|].
  inversion Hws; subst. simpl. apply IH; [assumption|].
  now apply word_step_allowed.
Qed.

Lemma sentence_step_allowed (st : list str * str) (sentence : str) :
  Forall allowed sentence -> all_chars allowed st ->
  all_chars allowed (sentence_step max_chunk_size st sentence).
Proof.
  destruct st as [chunks cur]. intros Hs [Hc Hcur]. simpl in Hc, Hcur.
  assert (Hswp : Forall allowed (sentence ++ [dot; space])).
  { apply Forall_app. split; [exact Hs|]. repeat constructor; assumption. }
  unfold sentence_step.
  destruct (len (cur ++ sentence ++ [dot; space]) <=? max_chunk_size)%Z.
  { split; [exact Hc|]. simpl. apply Forall_app. now split. }
  destruct (len (sentence ++ [dot; space]) <=? max_chunk_size)%Z.
  { split; [now apply flush_allowed|exact Hswp]. }
  pose proof (@words_allowed (split [space] (sentence ++ [dot; space]))
                (flush chunks cur, [])) as Hw.
  destruct (fold_left (word_step max_chunk_size)
              (split [space] (sentence ++ [dot; space]))
              (flush chunks cur, [])) as [chunks' cur'].
  destruct Hw as [Hc' Hcur'].
  - apply Forall_forall. intros w Hw. apply Forall_forall. intros c Hcw.
    rewrite Forall_forall in Hswp. apply Hswp.
    eapply split_In; eauto.
  - split; [now apply flush_allowed|constructor].
  - split; [now apply flush_allowed|constructor].
Qed.

Lemma sentences_allowed (sentences : list str) (st : list str * str) :
  Forall (Forall allowed) sentences -> all_chars allowed st ->
  all_chars allowed (fold_left (sentence_step max_chunk_size) sentences st).
Proof.
  revert st. induction sentences as [|x xs IH]; intros st Hx Hst; [exact Hst|].
  inversion Hx; subst. simpl. apply IH; [assumption|].
  now apply sentence_step_allowed.
Qed.

Lemma chunks_allowed (text : str) :
  Forall allowed (normalize_breaks text) ->
  Forall (Forall allowed) (split_text_into_chunks text max_chunk_size).
Proof.
  intros Ht. unfold split_text_into_chunks.
  pose proof (@sentences_allowed (sentences_of (normalize_breaks text))
                ([], [])) as H.
  destruct (fold_left (sentence_step max_chunk_size)
              (sentences_of (normalize_breaks text)) ([], []))
    as [chunks cur].
  destruct H as [Hc Hcur].
  - unfold sentences_of. apply Forall_map. apply Forall_forall.
    intros p Hp. apply filter_In in Hp as [Hp _].
    apply strip_allowed. apply Forall_forall. intros c Hc.
    rewrite Forall_forall in Ht. apply Ht. eapply split_In; eauto.
  - split; constructor.
  - now apply flush_allowed.
Qed.

End SegmenterChars.

Section SegmenterProperties3.

(** X3: a chunk holds only characters of the text, periods and spaces, and
    never a line feed or a carriage return, each of which the segmenter
    turns into a space first. *)
Theorem chunks_hold_text_characters
  (text : str) (max_chunk_size : Z) (chunk : str) (c : char) :
  In chunk (split_text_into_chunks text max_chunk_size) ->
  In c chunk ->
  from_text text c /\ c <> LF /\ c <> CR.
Proof.
  intros Hchunk Hc.
  assert (H : from_text text c).
  { pose proof (@chunks_allowed max_chunk_size (from_text text)) as Hall.
    specialize (Hall (or_intror (or_introl eq_refl))
                     (or_intror (or_intror eq_refl)) text).
    assert (Ht : Forall (from_text text) (normalize_breaks text)).
    { apply Forall_forall. intros d Hd. unfold normalize_breaks in Hd.
      apply replace_In in Hd as [[Hd Hcr]|Hd]; [|now right; right].
      apply replace_In in Hd as [[Hd Hlf]|Hd]; [|now right; right].
      left. tauto. }
    specialize (Hall Ht).
    rewrite Forall_forall in Hall. specialize (Hall chunk Hchunk).
    rewrite Forall_forall in Hall. now apply Hall. }
  split; [exact H|].
  destruct H as [(_ & Hlf & Hcr)|[->| ->]]; split; try assumption;
    discriminate.
Qed.

Lemma chunks_hold_text_characters_witness :
  from_text (lit "One" ++ [LF] ++ lit "two. Three") space /\
  space <> LF /\ space <> CR.
Proof.
  apply (@chunks_hold_text_characters
           (lit "One" ++ [LF] ++ lit "two. Three") 15
           (lit "One two.") space).
  - vm_compute. left. reflexivity.
  - vm_compute. repeat ((left; reflexivity) || right).
Defined.

(** X4: the segmenter gives no chunk exactly when the text has no sentence
    that is not blank. *)
Theorem no_chunk_iff_no_sentence (text : str) (max_chunk_size : Z) :
  split_text_into_chunks text max_chunk_size = [] <->
  sentences_of (normalize_breaks text) = [].
Proof.
  split.
  - intros E. pose proof (chunks_content max_chunk_size text) as H.
    rewrite E in H. simpl in H.
    destruct (sentences_of (normalize_breaks text)) as [|x xs];
      [reflexivity|].
    simpl in H. destruct (remove_ws x); discriminate.
  - intros E. unfold split_text_into_chunks. rewrite E. reflexivity.
Qed.

(** X5: the chunks, put end to end with all whitespace deleted, are the
    pieces of the text between the delimiters that are not blank, each
    followed by a period, with all whitespace deleted: the blank pieces go
    and every piece kept has one period after it, the last one too. *)
Theorem chunks_hold_the_sentences (text : str) (max_chunk_size : Z) :
  remove_ws (concat (split_text_into_chunks text max_chunk_size)) =
  concat (map (fun piece => remove_ws piece ++ [dot])
            (filter (fun piece => truthy (strip piece))
               (split [dot; space] (normalize_breaks text)))).
Proof.
  rewrite chunks_content. unfold sentences_of. rewrite map_map.
  f_equal. apply map_ext. intros p. now rewrite remove_ws_strip.
Qed.

End SegmenterProperties3.

Section WholeSentences.

Variable max_chunk_size : Z.

Lemma concat_with_period (g : list str) :
  g <> [] -> concat (map with_period g) = as_chunk g ++ [space].
Proof.
  induction g as [|s g IH]; [congruence|]. intros _.
  destruct g as [|s2 g].
  - unfold as_chunk, with_period. simpl.
    now rewrite app_nil_r, <- app_assoc.
  - change (concat (map with_period (s :: s2 :: g)))
      with (with_period s ++ concat (map with_period (s2 :: g))).
    rewrite IH by discriminate.
    unfold as_chunk, with_period.
    rewrite (@join_cons [dot; space] s (s2 :: g)) by discriminate.
    now rewrite <- !app_assoc.
Qed.

Lemma as_chunk_head (s : str) (g : list str) (c : char) (r : str) :
  s = c :: r -> exists t, as_chunk (s :: g) = c :: t.
Proof.
  intros ->. unfold as_chunk. destruct g; simpl; eauto.
Qed.

(** A run of sentences in [current_chunk] is flushed as the sentences
    joined by ['. '], with a period at the end. *)
Lemma strip_run (g : list str) :
  g <> [] -> Forall sentence_like g ->
  strip (concat (map with_period g)) = as_chunk g.
Proof.
  intros Hg Hall. rewrite concat_with_period by exact Hg.
  rewrite strip_snoc_space by reflexivity.
  unfold strip. unfold as_chunk at 1.
  rewrite rstrip_snoc_fixed by reflexivity. fold (as_chunk g).
  destruct g as [|s g]; [congruence|].
  inversion Hall as [|? ? [Hne Hs] _]; subst.
  destruct s as [|c r]; [congruence|].
  destruct (@as_chunk_head (c :: r) g c r eq_refl) as [t Ht].
  rewrite Ht. apply lstrip_fixed. eapply strip_head. exact Hs.
Qed.

Lemma as_chunk_truthy (g : list str) : truthy (as_chunk g) = true.
Proof. unfold as_chunk. now destruct (join [dot; space] g). Qed.

Lemma flush_run (groups : list (list str)) (g : list str) :
  Forall sentence_like g ->
  flush (map as_chunk groups) (concat (map with_period g)) =
  map as_chunk (close groups g).
Proof.
  intros Hall. destruct g as [|s g]; [reflexivity|].
  unfold flush. rewrite strip_run by (discriminate || exact Hall).
  rewrite as_chunk_truthy. simpl. now rewrite map_app.
Qed.

Lemma close_nonempty (groups : list (list str)) (g : list str) :
  Forall (fun x => x <> []) groups ->
  Forall (fun x => x <> []) (close groups g).
Proof.
  intros H. destruct g as [|s g]; [exact H|]. simpl.
  apply Forall_app. split; [exact H|]. now repeat constructor.
Qed.

Lemma concat_close (groups : list (list str)) (g : list str) :
  concat (close groups g) = concat groups ++ g.
Proof.
  destruct g as [|s g]; simpl; [now rewrite app_nil_r|].
  rewrite concat_app. simpl. now rewrite app_nil_r.
Qed.

(** A sentence that fits the ceiling is packed whole. *)
Lemma sentence_step_packed (done : list str) (st : list str * str)
  (sentence : str) :
  Forall sentence_like done -> sentence_like sentence ->
  (len (with_period sentence) <= max_chunk_size)%Z ->
  packed done st ->
  packed (done ++ [sentence]) (sentence_step max_chunk_size st sentence).
Proof.
  intros Hdone Hs Hfit (groups & g & Hc & Hcur & Hsplit & Hne).
  destruct st as [chunks cur]. simpl in Hc, Hcur. subst chunks cur.
  assert (Hg : Forall sentence_like g).
  { rewrite <- Hsplit in Hdone. now apply Forall_app in Hdone. }
  unfold sentence_step. fold (with_period sentence).
  destruct (len (concat (map with_period g) ++ with_period sentence)
            <=? max_chunk_size)%Z.
  - exists groups, (g ++ [sentence]). simpl. repeat split.
    + rewrite map_app, concat_app. simpl. now rewrite app_nil_r.
    + now rewrite app_assoc, Hsplit.
    + exact Hne.
  - apply Z.leb_le in Hfit. rewrite Hfit.
    exists (close groups g), [sentence]. simpl. repeat split.
    + now apply flush_run.
    + now rewrite app_nil_r.
    + now rewrite concat_close, Hsplit.
    + now apply close_nonempty.
Qed.

Lemma sentences_packed (sentences done : list str) (st : list str * str) :
  Forall sentence_like done -> Forall sentence_like sentences ->
  Forall (fun s => (len (with_period s) <= max_chunk_size)%Z) sentences ->
  packed done st ->
  packed (done ++ sentences)
         (fold_left (sentence_step max_chunk_size) sentences st).
Proof.
  revert done st.
  induction sentences as [|x xs IH]; intros done st Hdone Hlike Hfit Hst.
  - now rewrite app_nil_r.
  - inversion Hlike; subst. inversion Hfit; subst. simpl.
    replace (done ++ x :: xs) with ((done ++ [x]) ++ xs)
      by now rewrite <- app_assoc.
    apply IH; try assumption.
    + apply Forall_app. split; [assumption|now constructor].
    + now apply sentence_step_packed.
Qed.

(** While the whole of it fits, [current_chunk] takes every sentence. *)
Lemma sentences_fit (sentences : list str) (chunks : list str) (cur : str) :
  (len (cur ++ concat (map with_period sentences)) <= max_chunk_size)%Z ->
  fold_left (sentence_step max_chunk_size) sentences (chunks, cur) =
  (chunks, cur ++ concat (map with_period sentences)).
Proof.
  revert cur. induction sentences as [|x xs IH]; intros cur Hfit; simpl.
  - now rewrite app_nil_r.
  - fold (with_period x).
    assert (E : (len (cur ++ with_period x) <=? max_chunk_size)%Z = true).
    { apply Z.leb_le. simpl in Hfit. rewrite !len_app in *.
      pose proof (len_nonneg (concat (map with_period xs))). lia. }
    rewrite E, IH.
    + now rewrite <- app_assoc.
    + simpl in Hfit. now rewrite <- app_assoc.
Qed.

End WholeSentences.

Section SegmenterProperties4.

(** X6: when the sentences of the text, joined by ['. '] and with the last
    period, are shorter than [max_chunk_size], the text comes back as that
    one chunk. *)
Theorem short_text_is_one_chunk (text : str) (max_chunk_size : Z) :
  sentences_of (normalize_breaks text) <> [] ->
  (len (as_chunk (sentences_of (normalize_breaks text))) < max_chunk_size)%Z ->
  split_text_into_chunks text max_chunk_size =
  [as_chunk (sentences_of (normalize_breaks text))].
Proof.
  intros Hne Hlen. unfold split_text_into_chunks.
  rewrite sentences_fit.
  - simpl. change [] with (map as_chunk []) at 1.
    rewrite flush_run by apply sentences_of_like.
    destruct (sentences_of (normalize_breaks text)); [congruence|reflexivity].
  - simpl. rewrite concat_with_period by exact Hne.
    rewrite len_app. change (len [space]) with 1%Z. lia.
Qed.

Lemma short_text_is_one_chunk_witness :
  split_text_into_chunks (lit "  First one." ++ [LF] ++ lit "Second one. ")
    2500 = [lit "First one. Second one."].
Proof.
  apply (@short_text_is_one_chunk
           (lit "  First one." ++ [LF] ++ lit "Second one. ") 2500).
  - vm_compute. discriminate.
  - vm_compute. reflexivity.
Defined.

(** X7: when every sentence with its ['. '] is within [max_chunk_size], no
    sentence is cut: the sentences fall into runs of consecutive sentences,
    none empty, and the chunks are these runs in order, the sentences of a
    run joined by ['. '] with a period at the end. *)
Theorem fitting_sentences_are_kept_whole (text : str) (max_chunk_size : Z) :
  Forall (fun s => (len (with_period s) <= max_chunk_size)%Z)
         (sentences_of (normalize_breaks text)) ->
  exists runs,
    concat runs = sentences_of (normalize_breaks text) /\
    Forall (fun run => run <> []) runs /\
    split_text_into_chunks text max_chunk_size = map as_chunk runs.
Proof.
  intros Hfit. unfold split_text_into_chunks.
  pose proof (@sentences_packed max_chunk_size
                (sentences_of (normalize_breaks text)) [] ([], [])
                (Forall_nil _) (sentences_of_like _) Hfit) as H.
  destruct (fold_left (sentence_step max_chunk_size)
              (sentences_of (normalize_breaks text)) ([], []))
    as [chunks cur].
  destruct H as (groups & g & Hc & Hcur & Hsplit & Hne).
  { exists [], []. repeat split. constructor. }
  simpl in Hc, Hcur, Hsplit. subst chunks cur.
  exists (close groups g). split; [|split].
  - now rewrite concat_close.
  - now apply close_nonempty.
  - apply flush_run. pose proof (sentences_of_like (normalize_breaks text)) as Hl.
    rewrite <- Hsplit in Hl. now apply Forall_app in Hl.
Qed.

Lemma fitting_sentences_are_kept_whole_witness :
  exists runs,
    concat runs = [lit "Sentence one"; lit "Sentence two"; lit "Third"] /\
    Forall (fun run => run <> []) runs /\
    split_text_into_chunks (lit "Sentence one. Sentence two. Third") 25 =
    map as_chunk runs.
Proof.
  apply (@fitting_sentences_are_kept_whole
           (lit "Sentence one. Sentence two. Third") 25).
  vm_compute. repeat constructor; discriminate.
Defined.

End SegmenterProperties4.

(** ** More on the fan-out over chunks *)

Section MoreChunkFacts.

Variable self : worker.
Variable chunks : list text_data_t.
Variable replies : nat -> reply.

Lemma firstn_succ {A : Type} (l : list A) (k : nat) (x : A) :
  nth_error l k = Some x -> firstn (S k) l = firstn k l ++ [x].
Proof.
  revert k. induction l as [|y l IH]; intros [|k]; simpl; try discriminate.
  - intros H. injection H as ->. now destruct l.
  - intros H. f_equal. now apply IH.
Qed.

Lemma step_sent_in_order (ev : event) (st st' : state) :
  sent_in_order self chunks st ->
  step self chunks replies ev st = Some st' ->
  sent_in_order self chunks st'.
Proof.
  intros (k & Hk & Hq & Hr). destruct ev as [|index]; simpl; intros H.
  - apply enter_some in H as (index & chunk & Hn & Hq' & _ & _ & _ & _ & Hr').
    rewrite Hq in Hq'.
    destruct (length chunks - k)%nat as [|m] eqn:E; [discriminate|].
    simpl in Hq'. injection Hq' as <- Hq'.
    exists (S k). split; [lia|]. split.
    + replace (length chunks - S k)%nat with m by lia. now symmetry.
    + rewrite Hr', Hr, (firstn_succ _ _ Hn), map_app. reflexivity.
  - apply answer_some in H as (_ & Hq' & _ & _ & _ & Hr').
    exists k. now rewrite Hq', Hr'.
Qed.

Lemma exec_sent_in_order (schedule : list event) (st : state) :
  exec self chunks replies schedule (start chunks) = Some st ->
  sent_in_order self chunks st.
Proof.
  apply (@exec_keeps self chunks replies (sent_in_order self chunks)).
  - intros ev s s'. apply step_sent_in_order.
  - exists 0%nat. simpl. rewrite Nat.sub_0_r. repeat split. lia.
Qed.

Lemma signals_from (schedule : list event) :
  forall (st st' : state) (k m : nat),
    queue st = seq k m ->
    exec self chunks replies schedule st = Some st' ->
    signals st' = signals st ++ trace chunks replies k schedule.
Proof.
  induction schedule as [|ev schedule IH]; intros st st' k m Hq; simpl.
  - intros H. injection H as <-. now rewrite app_nil_r.
  - destruct (step self chunks replies ev st) as [st1|] eqn:E; [|discriminate].
    intros H. destruct ev as [|index]; simpl in E.
    + apply enter_some in E as (index & chunk & _ & Hq' & _ & _ & _ & Hs & _).
      rewrite Hq in Hq'. destruct m as [|m]; [discriminate|].
      simpl in Hq'. injection Hq' as <- Hq'.
      rewrite (IH st1 st' (S k) m (eq_sym Hq') H), Hs, <- app_assoc.
      reflexivity.
    + apply answer_some in E as (_ & Hq' & _ & _ & Hs & _).
      rewrite Hq in Hq'.
      rewrite (IH st1 st' k m Hq' H), Hs, <- app_assoc. reflexivity.
Qed.

Lemma ended_from (schedule : list event) :
  forall st st' : state,
    exec self chunks replies schedule st = Some st' ->
    Permutation (ended schedule ++ in_flight st' ++ queue st')
                (in_flight st ++ queue st).
Proof.
  induction schedule as [|ev schedule IH]; intros st st'; simpl.
  - intros H. now injection H as <-.
  - destruct (step self chunks replies ev st) as [st1|] eqn:E; [|discriminate].
    intros H. apply IH in H. destruct ev as [|index]; simpl in E.
    + apply enter_some in E as (index & chunk & _ & Hq & _ & Hfl & _).
      rewrite H, Hfl, Hq, <- app_assoc. reflexivity.
    + apply answer_some in E as (Ht & Hq & _).
      apply take_out_perm in Ht. simpl. rewrite H, Hq.
      change (index :: in_flight st1 ++ queue st)
        with ((index :: in_flight st1) ++ queue st).
      apply Permutation_app_tail. now symmetry.
Qed.

Lemma no_finished_signal (schedule : list event) (st : state) :
  exec self chunks replies schedule (start chunks) = Some st ->
  Forall (fun s => is_finished s = false) (signals st).
Proof.
  intros H.
  rewrite (@signals_from schedule (start chunks) st 0 (length chunks)
             eq_refl H).
  apply Forall_app. split; [now repeat constructor|].
  generalize 0%nat. clear H.
  induction schedule as [|[|index] schedule IH]; intros k; simpl.
  - constructor.
  - constructor; [reflexivity|apply IH].
  - constructor; [|apply IH]. unfold end_signal.
    now destruct (replies index).
Qed.

End MoreChunkFacts.

Section ChunkProperties2.

(** X8: whatever the order in which the calls end, when [process_chunks]
    returns it has sent one request for each chunk, in the order of the
    chunks, each with its chunk as the user message. *)
Theorem requests_follow_chunk_order
  (self : worker) (chunks : list text_data_t) (replies : nat -> reply)
  (schedule : list event) (fx : effects) :
  process_chunks self chunks replies schedule = Some fx ->
  sent fx = map (chat_request self (system_prompt self)) chunks /\
  map user_content (sent fx) = chunks.
Proof.
  intros H. apply process_chunks_some in H as (st & He & Hg & ->). simpl.
  apply exec_sent_in_order in He as (k & Hk & Hq & Hr).
  apply gathered_true in Hg as [Hq0 _]. rewrite Hq0 in Hq.
  assert (k = length chunks).
  { destruct (length chunks - k)%nat eqn:E; [lia|discriminate]. }
  subst k. rewrite firstn_all in Hr. split; [exact Hr|].
  rewrite Hr, map_map. simpl. apply map_id.
Qed.

Lemma requests_follow_chunk_order_witness :
  option_map (fun fx => map user_content (sent fx))
    (process_chunks two_chunks three_chunks two_replies
       [Enter; Enter; Answer 1; Enter; Answer 2; Answer 0]) =
  Some three_chunks.
Proof.
  pose proof (@requests_follow_chunk_order two_chunks three_chunks
                two_replies
                [Enter; Enter; Answer 1; Enter; Answer 2; Answer 0]) as H.
  destruct (process_chunks two_chunks three_chunks two_replies
              [Enter; Enter; Answer 1; Enter; Answer 2; Answer 0])
    as [fx|] eqn:E; [|vm_compute in E; discriminate E].
  simpl. f_equal. exact (proj2 (H fx eq_refl)).
Defined.

(** X9: [process_chunks] emits the line ["Split into N chunks for
    processing..."] and then one signal for each event: the k-th task to
    take a slot emits ["Processing chunk k/N..."], so these lines come in
    index order; the end of the call of chunk [i] emits the progress value
    [int((i + 1) / N * 100)] when the call returned, and the message
    ["[ERROR] Processing chunk {i+1}: {e}"] when it raised. *)
Theorem signals_follow_the_schedule
  (self : worker) (chunks : list text_data_t) (replies : nat -> reply)
  (schedule : list event) (fx : effects) :
  process_chunks self chunks replies schedule = Some fx ->
  emitted fx = start_signal chunks :: trace chunks replies 0 schedule.
Proof.
  intros H. apply process_chunks_some in H as (st & He & _ & ->). simpl.
  now rewrite (@signals_from self chunks replies schedule (start chunks) st
                 0 (length chunks) eq_refl He).
Qed.

Lemma signals_follow_the_schedule_witness :
  option_map emitted
    (process_chunks three_parts three_chunks second_fails
       [Enter; Enter; Answer 1; Enter; Answer 2; Answer 0]) =
  Some [output (lit "Split into 3 chunks for processing...");
        output (lit "Processing chunk 1/3...");
        output (lit "Processing chunk 2/3...");
        output (lit "[ERROR] Processing chunk 2: connection refused");
        output (lit "Processing chunk 3/3...");
        progress 100;
        progress 33].
Proof.
  pose proof (@signals_follow_the_schedule three_parts three_chunks
                second_fails
                [Enter; Enter; Answer 1; Enter; Answer 2; Answer 0]) as H.
  destruct (process_chunks three_parts three_chunks second_fails
              [Enter; Enter; Answer 1; Enter; Answer 2; Answer 0])
    as [fx|] eqn:E; [|vm_compute in E; discriminate E].
  simpl. f_equal. rewrite (H fx eq_refl). vm_compute. reflexivity.
Defined.

(** X10: the result of [process_chunks] is the join of the contributions
    in the order in which the calls ended, and every index ends exactly
    once; so when the calls end in index order the parts are in index
    order. *)
Theorem result_follows_the_order_of_ends
  (self : worker) (chunks : list text_data_t) (replies : nat -> reply)
  (schedule : list event) (fx : effects) :
  process_chunks self chunks replies schedule = Some fx ->
  result fx = combine self (map (contribution replies) (ended schedule)) /\
  Permutation (ended schedule) (seq 0 (length chunks)) /\
  NoDup (ended schedule).
Proof.
  intros H. apply process_chunks_some in H as (st & He & Hg & ->). simpl.
  assert (Hperm : Permutation (ended schedule) (seq 0 (length chunks))).
  { pose proof (ended_from self _ _ _ _ He) as Hp.
    apply gathered_true in Hg as [Hq Hf]. rewrite Hq, Hf in Hp.
    simpl in Hp. now rewrite !app_nil_r in Hp. }
  split; [|split].
  - now rewrite (summaries_in_completion_order _ _ _ _ He).
  - exact Hperm.
  - apply (Permutation_NoDup (Permutation_sym Hperm)). apply seq_NoDup.
Qed.

Lemma result_follows_the_order_of_ends_witness :
  option_map result
    (process_chunks two_chunks three_chunks two_replies
       [Enter; Enter; Answer 1; Enter; Answer 2; Answer 0]) =
  Some (join [LF; LF] [lit "Summary 2"; lit "Summary 3"; lit "Summary 1"]).
Proof.
  pose proof (@result_follows_the_order_of_ends two_chunks three_chunks
                two_replies
                [Enter; Enter; Answer 1; Enter; Answer 2; Answer 0]) as H.
  destruct (process_chunks two_chunks three_chunks two_replies
              [Enter; Enter; Answer 1; Enter; Answer 2; Answer 0])
    as [fx|] eqn:E; [|vm_compute in E; discriminate E].
  simpl. f_equal. rewrite (proj1 (H fx eq_refl)). vm_compute. reflexivity.
Defined.

End ChunkProperties2.

Section RunProperties.

Lemma process_full_text_not_finished (self : worker) (text : text_data_t)
  (r : reply) :
  Forall (fun s => is_finished s = false)
         (emitted (process_full_text self text r)).
Proof.
  unfold process_full_text. rewrite build_prompt_ok.
  destruct r; simpl; repeat constructor.
Qed.

Lemma process_chunks_not_finished (self : worker)
  (chunks : list text_data_t) (replies : nat -> reply)
  (schedule : list event) (fx : effects) :
  process_chunks self chunks replies schedule = Some fx ->
  Forall (fun s => is_finished s = false) (emitted fx).
Proof.
  intros H. apply process_chunks_some in H as (st & He & _ & ->). simpl.
  eapply no_finished_signal; eauto.
Qed.

(** X11: whenever [run] returns, on either path and also after the
    [ValueError], [finished_signal] has been emitted exactly once, as the
    last signal, and it carries [self.result]. *)
Theorem finished_signal_once_and_last
  (self : worker) (replies : nat -> reply) (schedule : list event)
  (fx : effects) :
  run self replies schedule = Some fx ->
  exists before,
    emitted fx = before ++ [finished_signal (result fx)] /\
    Forall (fun s => is_finished s = false) before.
Proof.
  unfold run. intros H.
  destruct (text_data self) as [text|cs|]; destruct (is_chunked self);
    try (apply option_map_finish in H as (fx0 & H0 & ->);
         exists (emitted fx0); split; [reflexivity|];
         eapply process_chunks_not_finished; eauto).
  - injection H as <-. eexists. split; [reflexivity|].
    apply process_full_text_not_finished.
  - injection H as <-. exists []. split; [reflexivity|constructor].
Qed.

Lemma finished_signal_once_and_last_witness :
  exists before,
    option_map emitted (run two_chunks two_replies out_of_order) =
    Some (before ++ [finished_signal
                       (lit "Summary 2" ++ [LF; LF] ++ lit "Summary 1")]) /\
    Forall (fun s => is_finished s = false) before.
Proof.
  pose proof (@finished_signal_once_and_last two_chunks two_replies
                out_of_order) as H.
  destruct (run two_chunks two_replies out_of_order) as [fx|] eqn:E;
    [|vm_compute in E; discriminate E].
  destruct (H fx eq_refl) as (before & Hb & Hall).
  exists before. split; [|exact Hall]. simpl. rewrite Hb.
  do 3 f_equal. vm_compute in E. injection E as <-. reflexivity.
Defined.

Lemma combine_nil (self : worker) : combine self [] = [].
Proof.
  unfold combine. now destruct (Str.eqb (prompt_type self) (lit "summary")).
Qed.

Lemma combine_one (self : worker) (part : str) : combine self [part] = part.
Proof.
  unfold combine. now destruct (Str.eqb (prompt_type self) (lit "summary")).
Qed.

(** X12: with an empty list of chunks [run] returns at once: the only
    schedule is the empty one, no request is sent, and the result is the
    empty string. *)
Theorem no_chunk_gives_empty_result
  (self : worker) (replies : nat -> reply) (schedule : list event)
  (fx : effects) :
  text_data self = TextList [] ->
  (run self replies schedule = Some fx <->
   schedule = [] /\
   fx = {| result := [];
           emitted := [start_signal []; finished_signal []];
           sent := [] |}).
Proof.
  intros Ht. split.
  - intros H. destruct (run_list _ _ _ Ht H) as (fx0 & Hpc & ->).
    simpl in Hpc.
    apply process_chunks_some in Hpc as (st & He & _ & ->).
    pose proof (exec_events_left _ _ _ _ _ He) as Hl.
    destruct schedule as [|ev schedule]; [|simpl in Hl; discriminate].
    simpl in He. injection He as <-. split; [reflexivity|].
    unfold finish. simpl. now rewrite combine_nil.
  - intros [-> ->]. unfold run. rewrite Ht.
    unfold process_chunks. simpl. rewrite combine_nil.
    now destruct (is_chunked self).
Qed.

End RunProperties.

Section RunProperties2.

Lemma no_chunk_gives_empty_result_witness :
  run no_chunks two_replies [] =
  Some {| result := [];
          emitted := [start_signal []; finished_signal []];
          sent := [] |}.
Proof.
  apply (@no_chunk_gives_empty_result no_chunks two_replies []).
  - reflexivity.
  - split; reflexivity.
Defined.

(** X13: on the single-unit path (a string, [is_chunked] false) [run]
    returns whatever the schedule, after one request that carries the
    whole text.  When the call returns, the result is its content and the
    progress value 100 is emitted; when it raises, the result is
    ["[ERROR] Failed to process text: {e}"] and no progress value is
    emitted. *)
Theorem single_unit_path
  (self : worker) (text : str) (replies : nat -> reply)
  (schedule : list event) :
  text_data self = TextStr text ->
  is_chunked self = false ->
  exists fx,
    run self replies schedule = Some fx /\
    sent fx = [chat_request self (system_prompt self) (TextStr text)] /\
    match replies 0%nat with
    | Ok content =>
        result fx = content /\ progress_values (emitted fx) = [100%Z]
    | Raise e =>
        result fx = text_error_msg e /\ progress_values (emitted fx) = []
    end.
Proof.
  intros Ht Hc. unfold run. rewrite Ht, Hc. eexists. split; [reflexivity|].
  unfold process_full_text. rewrite build_prompt_ok.
  destruct (replies 0%nat) as [content|e]; simpl; repeat split.
Qed.

Lemma single_unit_path_witness :
  exists fx,
    run asking (fun _ => Raise (lit "timed out")) [] = Some fx /\
    result fx = lit "[ERROR] Failed to process text: timed out" /\
    progress_values (emitted fx) = [].
Proof.
  destruct (@single_unit_path asking (lit "Cells divide.")
              (fun _ => Raise (lit "timed out")) [] eq_refl eq_refl)
    as (fx & Hrun & _ & Hres & Hprog).
  exists fx. repeat split; assumption.
Defined.

(** X14: a string given with [is_chunked] true is run as a list of one
    chunk: the only schedule on which [run] returns is entry, then end of
    call 0; one request carries the string; the result is the content the
    call returned, or ["[ERROR] Processing chunk 1: {e}"], with no
    separator. *)
Theorem one_string_as_one_chunk
  (self : worker) (text : str) (replies : nat -> reply)
  (schedule : list event) (fx : effects) :
  text_data self = TextStr text ->
  is_chunked self = true ->
  run self replies schedule = Some fx ->
  schedule = [Enter; Answer 0] /\
  sent fx = [chat_request self (system_prompt self) (TextStr text)] /\
  result fx = contribution replies 0.
Proof.
  intros Ht Hc H. unfold run in H. rewrite Ht, Hc in H.
  apply option_map_finish in H as (fx0 & Hpc & ->).
  apply process_chunks_some in Hpc as (st & He & Hg & ->).
  pose proof (ended_from _ _ _ _ _ He) as Hp.
  pose proof (summaries_in_completion_order _ _ _ _ He) as Hs.
  pose proof (exec_sent_in_order _ _ _ _ He) as (k & Hk & Hq & Hr).
  pose proof (exec_events_left _ _ _ _ _ He) as Hl.
  apply gathered_true in Hg as [Hq0 Hf0].
  unfold events_left in Hl. rewrite Hq0, Hf0 in *. simpl in Hl, Hp, Hk.
  rewrite !app_nil_r in Hp.
  apply Permutation_sym, Permutation_length_1_inv in Hp.
  assert (k = 1%nat)
    by (simpl in Hq; destruct k as [|[|k]]; [discriminate|reflexivity|lia]).
  subst k. simpl in Hr. simpl. rewrite Hr, Hs, Hp. simpl.
  rewrite combine_one. repeat split.
  destruct schedule as [|e1 [|e2 [|e3 schedule]]]; try discriminate Hl.
  destruct e1 as [|i]; [|discriminate He].
  destruct e2 as [|j]; simpl in Hp; [discriminate|].
  now injection Hp as ->.
Qed.

Lemma one_string_as_one_chunk_witness :
  option_map result
    (run one_chunk (fun _ => Raise (lit "timed out")) [Enter; Answer 0]) =
  Some (lit "[ERROR] Processing chunk 1: timed out").
Proof.
  pose proof (@one_string_as_one_chunk one_chunk (lit "Cells divide.")
                (fun _ => Raise (lit "timed out")) [Enter; Answer 0]) as H.
  destruct (run one_chunk (fun _ => Raise (lit "timed out"))
              [Enter; Answer 0]) as [fx|] eqn:E;
    [|vm_compute in E; discriminate E].
  destruct (H fx eq_refl eq_refl eq_refl) as (_ & _ & Hres).
  simpl. now rewrite Hres.
Defined.

End RunProperties2.

(** ** The application *)

Section AppFacts.

(** On the single-unit path every request is the one of the text. *)
Lemma sends_single (w : worker) (text : str) (req : request) :
  text_data w = TextStr text -> is_chunked w = false ->
  sends w req ->
  req = chat_request w (system_prompt w) (TextStr text).
Proof.
  intros Ht Hc (replies & schedule & fx & Hrun & Hin).
  unfold run in Hrun. rewrite Ht, Hc in Hrun. injection Hrun as <-.
  simpl in Hin. now apply process_full_text_sent in Hin.
Qed.

Lemma single_always_sends (w : worker) (text : str) :
  text_data w = TextStr text -> is_chunked w = false ->
  sends w (chat_request w (system_prompt w) (TextStr text)).
Proof.
  intros Ht Hc. exists (fun _ => Ok []), []. eexists. split.
  - unfold run. rewrite Ht, Hc. reflexivity.
  - unfold process_full_text. rewrite build_prompt_ok. simpl. now left.
Qed.

(** The content types the combo box can lead to. *)
Lemma mapped_content_type (selected_type : str) :
  In (get App.content_type_map selected_type (lit "summary"))
     [lit "summary"; lit "brief"; lit "qna"; lit "questions"].
Proof.
  unfold get, App.content_type_map, lookup.
  destruct (Str.eqb (lit "Summary") selected_type); [simpl; tauto|].
  destruct (Str.eqb (lit "Brief Overview") selected_type); [simpl; tauto|].
  destruct (Str.eqb (lit "Q&A") selected_type); [simpl; tauto|].
  destruct (Str.eqb (lit "Practice Questions") selected_type);
    simpl; tauto.
Qed.

Lemma mapped_answer_length (combo length : str) :
  lookup App.length_map combo = Some length -> truthy length = true.
Proof.
  unfold App.length_map, lookup.
  destruct (Str.eqb (lit "Brief (1-2 sentences)") combo);
    [intros H; now injection H as <-|].
  destruct (Str.eqb (lit "Medium (3-5 sentences)") combo);
    [intros H; now injection H as <-|].
  destruct (Str.eqb (lit "Detailed (1 paragraph)") combo);
    [intros H; now injection H as <-|].
  destruct (Str.eqb (lit "Comprehensive (2+ paragraphs)") combo);
    [intros H; now injection H as <-|discriminate].
Qed.

Lemma generate_content_started
  (has_file : bool) (selected_type : str) (question_count : nat)
  (question_type : str) (extracted : exc str) (w : worker) :
  App.generate_content has_file selected_type question_count question_type
    extracted = App.Started w ->
  exists text,
    has_file = true /\ extracted = Ok text /\ truthy (strip text) = true /\
    w = {| text_data := TextStr text;
           model := App.default_model;
           prompt_type := get App.content_type_map selected_type
                            (lit "summary");
           custom_prompt := App.question_prompt selected_type question_count
                              question_type;
           answer_length := [];
           is_chunked := false |}.
Proof.
  unfold App.generate_content.
  destruct has_file; [|discriminate]. simpl.
  destruct extracted as [text|e]; [|discriminate].
  destruct (truthy (strip text)) eqn:E; [|discriminate]. simpl.
  intros H. injection H as <-. exists text. repeat split. exact E.
Qed.

Lemma ask_question_started
  (has_file : bool) (current_pdf_text question_input combo : str)
  (w : worker) :
  App.ask_question has_file current_pdf_text question_input combo
    = App.Started w ->
  has_file = true /\ truthy current_pdf_text = true /\
  truthy (strip question_input) = true /\
  w = {| text_data := TextStr (App.question_message (strip question_input)
                                 current_pdf_text);
         model := App.default_model;
         prompt_type := lit "professor";
         custom_prompt := App.professor_instruction;
         answer_length := get App.length_map combo [];
         is_chunked := false |}.
Proof.
  unfold App.ask_question.
  destruct has_file; [|discriminate].
  destruct (truthy current_pdf_text) eqn:E1; [|discriminate]. simpl.
  destruct (truthy (strip question_input)) eqn:E2; [|discriminate]. simpl.
  intros H. injection H as <-. repeat split.
Qed.

End AppFacts.

Section AppProperties.

(** X15: the worker that [generate_content] starts sends the fixed
    instruction of the content type the combo box maps to ([summary] for a
    text of the box that the map does not have), with the whole extracted
    text as the user message.  The prompt built from the number and the
    type of the questions is handed to the worker and has no effect on the
    request: with any other number and any other type of questions, the
    request is the same one. *)
Theorem generate_content_sends_the_fixed_instruction
  (has_file : bool) (selected_type : str) (question_count : nat)
  (question_type : str) (extracted : exc str) (w : worker) (req : request) :
  App.generate_content has_file selected_type question_count question_type
    extracted = App.Started w ->
  sends w req ->
  custom_prompt w =
    App.question_prompt selected_type question_count question_type /\
  system_content req =
    get fixed_prompts (get App.content_type_map selected_type (lit "summary"))
      summary_prompt /\
  In (system_content req)
     [summary_prompt; brief_prompt; qna_prompt; questions_prompt] /\
  (exists text, extracted = Ok text /\ user_content req = TextStr text) /\
  (forall question_count' question_type' w' req',
     App.generate_content has_file selected_type question_count'
       question_type' extracted = App.Started w' ->
     sends w' req' ->
     req' = req).
Proof.
  intros H Hs.
  apply generate_content_started in H as (text & _ & -> & _ & ->).
  apply (@sends_single _ text) in Hs; [|reflexivity|reflexivity].
  subst req.
  pose proof (mapped_content_type selected_type) as Hin.
  assert (Hsys : forall w',
            prompt_type w' = get App.content_type_map selected_type
                               (lit "summary") ->
            system_prompt w' =
            get fixed_prompts
              (get App.content_type_map selected_type (lit "summary"))
              summary_prompt).
  { intros w' Hw'.
    assert (Hne : prompt_type w' <> professor).
    { rewrite Hw'. simpl in Hin.
      destruct Hin as [<-|[<-|[<-|[<-|[]]]]]; discriminate. }
    now rewrite system_prompt_other, get_other, Hw'. }
  rewrite Hsys by reflexivity.
  split; [reflexivity|]. split; [reflexivity|]. split; [|split].
  - cbn [system_content chat_request]. simpl in Hin.
    destruct Hin as [<-|[<-|[<-|[<-|[]]]]]; simpl; tauto.
  - now exists text.
  - intros question_count' question_type' w' req' H' Hs'.
    apply generate_content_started in H' as (text' & _ & Ht' & _ & ->).
    injection Ht' as <-.
    apply (@sends_single _ text) in Hs'; [|reflexivity|reflexivity].
    subst req'. rewrite Hsys by reflexivity. reflexivity.
Qed.

Lemma quiz_sends :
  sends quiz (chat_request quiz qna_prompt (TextStr (lit "Cells divide."))).
Proof.
  exists (fun _ => Ok []), []. eexists. split; [reflexivity|].
  left. reflexivity.
Defined.

Lemma generate_content_sends_the_fixed_instruction_witness :
  custom_prompt quiz =
    App.question_prompt (lit "Q&A") 12 (lit "Short Answer") /\
  system_content
    (chat_request quiz qna_prompt (TextStr (lit "Cells divide."))) =
  qna_prompt /\
  (forall w' req',
     App.generate_content true (lit "Q&A") 3 (lit "Multiple Choice")
       (Ok (lit "Cells divide.")) = App.Started w' ->
     sends w' req' ->
     req' = chat_request quiz qna_prompt (TextStr (lit "Cells divide."))).
Proof.
  assert (Hgen : App.generate_content true (lit "Q&A") 12 (lit "Short Answer")
                   (Ok (lit "Cells divide.")) = App.Started quiz)
    by (vm_compute; reflexivity).
  destruct (generate_content_sends_the_fixed_instruction _ _ _ _ _ Hgen
              quiz_sends) as (Hc & Hsys & _ & _ & Hsame).
  split; [exact Hc|]. split; [rewrite Hsys; vm_compute; reflexivity|].
  intros w' req'. apply Hsame.
Defined.

End AppProperties.

Section AppProperties2.

Lemma strip_truthy (s : str) (c : char) :
  In c s -> isspace c = false -> truthy (strip s) = true.
Proof.
  intros Hin Hc. destruct (strip s) as [|d r] eqn:E; [|reflexivity].
  exfalso. pose proof (remove_ws_strip s) as H. rewrite E in H. simpl in H.
  assert (Hr : In c (remove_ws s)).
  { unfold remove_ws. apply filter_In. split; [exact Hin|].
    now rewrite Hc. }
  rewrite <- H in Hr. destruct Hr.
Qed.

Lemma question_message_truthy (question text : str) :
  truthy (strip (App.question_message question text)) = true.
Proof.
  apply (@strip_truthy _ 66%N); [|reflexivity].
  unfold App.question_message. apply in_or_app. left. now left.
Qed.

Lemma question_message_len (question text : str) :
  (len (App.question_message question text) =
   76 + len question + Z.min 5000 (len text))%Z.
Proof.
  assert (Hf : len (App.prefix App.context_limit text)
               = Z.min 5000 (len text)).
  { unfold len, App.prefix, App.context_limit. rewrite length_firstn. lia. }
  unfold App.question_message. rewrite !len_app, Hf.
  assert (H1 : len (lit "Based on the following text, please answer this question: ") = 58%Z)
    by reflexivity.
  assert (H2 : len (lit "Context text:") = 13%Z) by reflexivity.
  assert (H3 : len (lit "...") = 3%Z) by reflexivity.
  assert (H4 : len [LF] = 1%Z) by reflexivity.
  rewrite H1, H2, H3, H4. lia.
Qed.

Lemma single_unit_sent (w : worker) (text : str) (replies : nat -> reply)
  (schedule : list event) :
  text_data w = TextStr text -> is_chunked w = false ->
  exists fx,
    run w replies schedule = Some fx /\
    sent fx = [chat_request w (system_prompt w) (TextStr text)].
Proof.
  intros Ht Hc. unfold run. rewrite Ht, Hc. eexists. split; [reflexivity|].
  unfold process_full_text. rewrite build_prompt_ok.
  now destruct (replies 0%nat).
Qed.

(** X16: none of the three methods that start a worker uses the chunked
    path.  Whatever [process_pdf], [generate_content] or [ask_question]
    starts is a worker on one string that is not blank, with the model
    ["gemma3:4b-it-qat"] and [is_chunked] false; it makes exactly one call,
    whatever that call answers. *)
Theorem application_never_chunks (w : worker) :
  (exists title_word has_file extracted,
     fst (App.process_pdf title_word has_file extracted) = App.Started w) \/
  (exists has_file selected_type question_count question_type extracted,
     App.generate_content has_file selected_type question_count
       question_type extracted = App.Started w) \/
  (exists has_file current_pdf_text question_input combo,
     App.ask_question has_file current_pdf_text question_input combo
       = App.Started w) ->
  is_chunked w = false /\
  model w = App.default_model /\
  exists text,
    text_data w = TextStr text /\
    truthy (strip text) = true /\
    forall replies schedule,
      exists fx, run w replies schedule = Some fx /\
                 sent fx = [chat_request w (system_prompt w) (TextStr text)].
Proof.
  intros [H|[H|H]].
  - destruct H as (tw & has_file & extracted & H).
    unfold App.process_pdf in H. destruct has_file; [|discriminate].
    destruct extracted as [text|e]; [|discriminate]. simpl in H.
    destruct (truthy (strip text)) eqn:E; [|discriminate]. simpl in H.
    injection H as <-. repeat split. exists text. repeat split; [exact E|].
    intros replies schedule. now apply single_unit_sent.
  - destruct H as (has_file & sel & n & qt & extracted & H).
    apply generate_content_started in H as (text & _ & _ & E & ->).
    repeat split. exists text. repeat split; [exact E|].
    intros replies schedule. now apply single_unit_sent.
  - destruct H as (has_file & text & q & combo & H).
    apply ask_question_started in H as (_ & _ & _ & ->).
    repeat split. eexists. repeat split.
    + apply question_message_truthy.
    + intros replies schedule. now apply single_unit_sent.
Qed.

Lemma application_never_chunks_witness :
  is_chunked quiz = false /\
  forall replies schedule,
    exists fx, run quiz replies schedule = Some fx /\ length (sent fx) = 1%nat.
Proof.
  assert (Hgen : App.generate_content true (lit "Q&A") 12 (lit "Short Answer")
                   (Ok (lit "Cells divide.")) = App.Started quiz)
    by (vm_compute; reflexivity).
  destruct (@application_never_chunks quiz) as (Hc & _ & text & _ & _ & Hrun).
  { right. left. do 5 eexists. exact Hgen. }
  split; [exact Hc|]. intros replies schedule.
  destruct (Hrun replies schedule) as (fx & Hfx & Hsent).
  exists fx. split; [exact Hfx|]. now rewrite Hsent.
Defined.

(** X17: the worker that [ask_question] starts sends one request.  Its user
    message holds the stripped question and at most the first 5000
    characters of the text of the PDF, followed by ["..."] also when
    nothing was cut; its length is that of the question plus at most 5000
    plus the 76 characters of the frame.  Its instruction is the fixed
    professor instruction of [ask_question], with ["Answer length: {l}. "]
    before it when the combo box holds one of the four known lengths and
    with nothing before it otherwise.  Its temperature is 0.7. *)
Theorem ask_question_request
  (has_file : bool) (current_pdf_text question_input combo : str)
  (w : worker) (req : request) :
  App.ask_question has_file current_pdf_text question_input combo
    = App.Started w ->
  sends w req ->
  user_content req =
    TextStr (lit "Based on the following text, please answer this question: "
             ++ strip question_input ++ [LF]
             ++ lit "Context text:" ++ [LF]
             ++ firstn 5000 current_pdf_text ++ lit "...") /\
  (len (App.question_message (strip question_input) current_pdf_text) =
   76 + len (strip question_input) + Z.min 5000 (len current_pdf_text))%Z /\
  system_content req =
    match lookup App.length_map combo with
    | Some l => lit "Answer length: " ++ l ++ lit ". "
                ++ App.professor_instruction
    | None => App.professor_instruction
    end /\
  temperature req = Lit.f0_7.
Proof.
  intros H Hs. apply ask_question_started in H as (_ & _ & _ & ->).
  apply (@sends_single _
           (App.question_message (strip question_input) current_pdf_text))
    in Hs; [|reflexivity|reflexivity].
  subst req.
  split; [reflexivity|]. split; [apply question_message_len|].
  split; [|reflexivity].
  cbn [system_content chat_request]. unfold system_prompt.
  cbn [prompt_type answer_length]. fold professor.
  rewrite get_professor, eqb_refl, andb_true_r.
  cbn [custom_prompt]. change (truthy App.professor_instruction) with true.
  cbv iota. unfold get.
  destruct (lookup App.length_map combo) as [l|] eqn:E; [|reflexivity].
  now rewrite (mapped_answer_length _ E).
Qed.

Lemma ask_question_request_witness :
  exists w,
    App.ask_question true (lit "Cells divide. They also grow.")
      (lit "  What do cells do? ") (lit "Brief (1-2 sentences)")
    = App.Started w /\
    system_prompt w =
      lit "Answer length: Brief answer (1-2 sentences). "
      ++ App.professor_instruction.
Proof.
  eexists. split; [vm_compute; reflexivity|].
  refine (proj1 (proj2 (proj2
    (@ask_question_request true (lit "Cells divide. They also grow.")
       (lit "  What do cells do? ") (lit "Brief (1-2 sentences)") _
       (chat_request _ _ _) eq_refl _)))).
  eapply single_always_sends; reflexivity.
Defined.

End AppProperties2.

Section TopicFacts.

Lemma lstrip_dots_nil (l : str) :
  App.lstrip_dots l = [] -> Forall (fun c => c = dot) l.
Proof.
  induction l as [|c l IH]; simpl; [constructor|].
  destruct (N.eqb_spec c dot) as [->|Hne]; [|discriminate].
  intros H. constructor; [reflexivity|now apply IH].
Qed.

(** A string without whitespace is one word at most. *)
Lemma words_from_one (s : str) :
  Forall (fun c => isspace c = false) s ->
  forall cur, (length (words_from cur s) <= 1)%nat.
Proof.
  induction 1 as [|c s Hc _ IH]; intros cur; simpl.
  - destruct (truthy cur); simpl; lia.
  - rewrite Hc. apply IH.
Qed.

Lemma three_words_not_dots (s : str) :
  (3 <= length (words_from [] s))%nat -> App.rstrip_dots s <> [].
Proof.
  intros H E. unfold App.rstrip_dots in E.
  assert (E' : App.lstrip_dots (rev s) = []).
  { apply (f_equal (@length char)) in E. rewrite length_rev in E.
    now destruct (App.lstrip_dots (rev s)). }
  apply lstrip_dots_nil, Forall_rev in E'. rewrite rev_involutive in E'.
  assert (Hs : Forall (fun c => isspace c = false) s).
  { eapply Forall_impl; [|exact E']. now intros c ->. }
  pose proof (words_from_one Hs []). lia.
Qed.

Lemma title_like_words (title_word : str -> bool) (s : str) :
  App.title_like title_word s = true ->
  (3 <= length (words_from [] s) <= 10)%nat.
Proof.
  unfold App.title_like.
  destruct (3 <=? length (words_from [] s))%nat eqn:E1; [|discriminate].
  destruct (length (words_from [] s) <=? 10)%nat eqn:E2; [|discriminate].
  intros _. apply Nat.leb_le in E1. apply Nat.leb_le in E2. lia.
Qed.

Lemma first_title_some (title_word : str -> bool) (l : list str) (t : str) :
  App.first_title title_word l = Some t ->
  exists s, In s l /\ App.title_like title_word s = true /\
            t = App.rstrip_dots s.
Proof.
  induction l as [|x l IH]; simpl; [discriminate|].
  destruct (App.title_like title_word x) eqn:E.
  - intros H. injection H as <-. exists x. auto.
  - intros H. destruct (IH H) as (s & Hin & Ht & Heq). exists s. auto.
Qed.

Lemma blank_no_sentence (s : str) : blank s -> sentences_of s = [].
Proof.
  intros Hb. unfold sentences_of. rewrite split_no_dot.
  - simpl. now rewrite (strip_blank Hb).
  - intros Hin. unfold blank in Hb. rewrite Forall_forall in Hb.
    apply Hb in Hin. discriminate.
Qed.

End TopicFacts.

Section TopicProperties.

(** X18: [extract_topic] never gives the empty string.  The topic is the
    placeholder ["PDF Content Summary"], or the first sentence of the
    snippet, or one of its first three sentences, of three to ten words,
    without the periods at its end; for a blank snippet it is the
    placeholder.  This holds whatever words count as capitalised. *)
Theorem topic_is_never_empty (title_word : str -> bool) (text_snippet : str) :
  App.extract_topic title_word text_snippet <> [] /\
  (App.extract_topic title_word text_snippet = App.placeholder \/
   (exists first rest,
      sentences_of text_snippet = first :: rest /\
      App.extract_topic title_word text_snippet = first) \/
   (exists sentence,
      In sentence (firstn 3 (sentences_of text_snippet)) /\
      (3 <= length (words_from [] sentence) <= 10)%nat /\
      App.extract_topic title_word text_snippet =
        App.rstrip_dots sentence)) /\
  (blank text_snippet ->
   App.extract_topic title_word text_snippet = App.placeholder).
Proof.
  unfold App.extract_topic. split; [|split].
  - destruct (App.first_title title_word (firstn 3 (sentences_of text_snippet)))
      as [t|] eqn:E.
    + apply first_title_some in E as (s & _ & Ht & ->).
      apply three_words_not_dots. apply title_like_words in Ht. lia.
    + pose proof (sentences_of_like text_snippet) as Hl.
      destruct (sentences_of text_snippet) as [|first rest]; [discriminate|].
      inversion Hl as [|? ? [Hne _] _]. exact Hne.
  - destruct (App.first_title title_word (firstn 3 (sentences_of text_snippet)))
      as [t|] eqn:E.
    + apply first_title_some in E as (s & Hin & Ht & ->).
      right. right. exists s. split; [exact Hin|].
      split; [eapply title_like_words; eauto|reflexivity].
    + destruct (sentences_of text_snippet) as [|first rest]; [now left|].
      right. left. now exists first, rest.
  - intros Hb. now rewrite (blank_no_sentence Hb).
Qed.

End TopicProperties.

Section DocumentProperties.

Lemma run_heads_differ (a b : str) (s1 s2 : App.run_style) :
  hd 0%N a <> hd 0%N b -> (a, s1) <> (b, s2).
Proof. intros Hne H. injection H as -> _. now apply Hne. Qed.

Lemma truthy_not_nil (s : str) : truthy s = true -> s <> [].
Proof. now destruct s. Qed.

(** X19: the title of the document is never empty, and it is the topic
    whenever the topic is neither empty nor the placeholder.  The line
    ["Topic: ..."] of the metadata is written only for a topic that is the
    placeholder ["PDF Content Summary"] itself, under a title taken from
    the file name: a topic found in the text is never shown there. *)
Theorem title_and_topic_line (filename topic : str) :
  App.document_title filename topic <> [] /\
  (truthy topic = true -> topic <> App.placeholder ->
   App.document_title filename topic = topic) /\
  ((exists style,
      In (lit "Topic: " ++ topic ++ [LF], style)
         (App.metadata_runs filename topic)) <->
   (topic = App.placeholder /\ truthy filename = true /\
    filename <> lit "Unknown" /\ filename <> App.placeholder)).
Proof.
  split; [|split].
  - unfold App.document_title.
    destruct (truthy topic) eqn:Et; simpl.
    + destruct (Str.eqb topic App.placeholder); simpl;
        [|now apply truthy_not_nil].
      destruct (truthy filename) eqn:Ef; simpl; [|discriminate].
      destruct (Str.eqb filename (lit "Unknown")); simpl;
        [discriminate|now apply truthy_not_nil].
    + destruct (truthy filename) eqn:Ef; simpl; [|discriminate].
      destruct (Str.eqb filename (lit "Unknown")); simpl;
        [discriminate|now apply truthy_not_nil].
  - intros Ht Hne. unfold App.document_title.
    apply eqb_neq in Hne. now rewrite Ht, Hne.
  - unfold App.metadata_runs. split.
    + intros (style & Hin).
      apply in_app_or in Hin as [[H|[]]|Hin];
        [exfalso; revert H; apply run_heads_differ; discriminate|].
      apply in_app_or in Hin as [Hin|Hin].
      { exfalso.
        destruct (truthy filename && negb (Str.eqb filename (lit "Unknown")));
          [|destruct Hin].
        destruct Hin as [H|[]]. revert H.
        apply run_heads_differ. discriminate. }
      apply in_app_or in Hin as [Hin|[H|[]]];
        [|exfalso; revert H; apply run_heads_differ; discriminate].
      destruct (truthy topic) eqn:Et; [|destruct Hin].
      destruct (Str.eqb topic (App.document_title filename topic)) eqn:Ed;
        [destruct Hin|].
      clear Hin. unfold App.document_title in Ed. rewrite Et in Ed.
      simpl in Ed.
      destruct (Str.eqb topic App.placeholder) eqn:Ep; simpl in Ed;
        [|now rewrite eqb_refl in Ed].
      apply eqb_eq in Ep. subst topic.
      destruct (truthy filename) eqn:Ef; simpl in Ed;
        [|now rewrite eqb_refl in Ed].
      destruct (Str.eqb filename (lit "Unknown")) eqn:Eu; simpl in Ed;
        [now rewrite eqb_refl in Ed|].
      apply eqb_neq in Eu. apply eqb_neq in Ed.
      repeat split; [exact Eu|congruence].
    + intros (-> & Hf & Hu & Hp). exists App.Plain.
      apply eqb_neq in Hu.
      assert (Ht : App.document_title filename App.placeholder = filename).
      { unfold App.document_title. rewrite eqb_refl, Hf, Hu. reflexivity. }
      rewrite Ht, Hf, Hu.
      assert (Ep : Str.eqb App.placeholder filename = false)
        by (apply eqb_neq; congruence).
      rewrite Ep. simpl. right. right. left. reflexivity.
Qed.

Lemma starts_with_app (p s : str) : starts_with p (p ++ s) = true.
Proof.
  induction p as [|c p IH]; [reflexivity|]. simpl.
  now rewrite N.eqb_refl, IH.
Qed.



End DocumentProperties.

Section SectionFacts.

Lemma contains_cons (sub : str) (c : char) (s : str) :
  App.contains sub (c :: s) = false ->
  starts_with sub (c :: s) = false /\ App.contains sub s = false.
Proof. simpl. intros H. now apply orb_false_elim in H. Qed.

(** A string in which [sep] does not occur is one piece. *)
Lemma split_not_contains (sep s : str) :
  App.contains sep s = false -> split sep s = [s].
Proof.
  unfold split. induction s as [|c s IH]; intros H; [reflexivity|].
  apply contains_cons in H as [Hs Hc].
  rewrite split_from_cons, Hs, (IH Hc). reflexivity.
Qed.

Lemma split_from_skip (sep l b : str) :
  split_from sep (length l) (l ++ b) = split_from sep 0 b.
Proof. induction l as [|c l IH]; [reflexivity|exact IH]. Qed.

(** A match that starts in [q] and runs past its end reads the character
    after [q]. *)
Lemma starts_with_across (sep q : str) (x : char) (t : str) :
  starts_with sep (q ++ x :: t) = true ->
  starts_with sep q = true \/ In x sep.
Proof.
  revert q. induction sep as [|a sep IH]; intros q H; [now left|].
  destruct q as [|c q]; simpl in H.
  - apply andb_prop in H as [Ha _]. apply N.eqb_eq in Ha. right. now left.
  - apply andb_prop in H as [Ha Hs]. destruct (IH q Hs) as [Hq|Hin].
    + left. simpl. now rewrite Ha, Hq.
    + right. now right.
Qed.

(** No occurrence in [x], none from [c] on, and [c] not in [sep]: none in
    the whole. *)
Lemma contains_app (sep x : str) (c : char) (y : str) :
  App.contains sep x = false -> ~ In c sep ->
  App.contains sep (c :: y) = false ->
  App.contains sep (x ++ c :: y) = false.
Proof.
  intros Hx Hc Hy. induction x as [|d x IH]; [exact Hy|].
  apply contains_cons in Hx as [Hs Hx].
  change ((d :: x) ++ c :: y) with (d :: (x ++ c :: y)).
  cbn [App.contains]. rewrite (IH Hx), orb_false_r.
  destruct (starts_with sep (d :: x ++ c :: y)) eqn:E; [|reflexivity].
  change (d :: x ++ c :: y) with ((d :: x) ++ c :: y) in E.
  apply starts_with_across in E as [E|E]; [congruence|contradiction].
Qed.

Lemma starts_with_long (sep s t : str) :
  (length sep <= length s)%nat ->
  starts_with sep (s ++ t) = starts_with sep s.
Proof.
  revert s. induction sep as [|a sep IH]; intros s Hl; [reflexivity|].
  destruct s as [|c s]; simpl in *; [lia|].
  rewrite IH by lia. reflexivity.
Qed.

(** The first piece: up to the first occurrence of [sep]. *)
Lemma split_at_first (sep a b : str) :
  sep <> [] ->
  App.contains sep (a ++ removelast sep) = false ->
  split sep (a ++ sep ++ b) = a :: split sep b.
Proof.
  intros Hsep. unfold split. induction a as [|c a IH]; intros H.
  - destruct sep as [|c0 sep']; [congruence|]. simpl app.
    rewrite split_from_cons.
    change (c0 :: sep' ++ b) with ((c0 :: sep') ++ b).
    rewrite starts_with_app. simpl Nat.pred.
    now rewrite split_from_skip.
  - change ((c :: a) ++ removelast sep) with (c :: (a ++ removelast sep)) in H.
    apply contains_cons in H as [Hs Hc].
    change ((c :: a) ++ sep ++ b) with (c :: (a ++ sep ++ b)).
    rewrite split_from_cons.
    assert (E : starts_with sep (c :: a ++ sep ++ b) = false).
    { remember (removelast sep) as r eqn:Er.
      remember (last sep 0%N) as z eqn:Ez.
      assert (Hsepeq : sep = r ++ [z])
        by (subst r z; now apply app_removelast_last).
      pose proof (f_equal (@length char) Hsepeq) as Hl.
      rewrite length_app in Hl. simpl in Hl.
      replace (c :: a ++ sep ++ b) with (((c :: a) ++ r) ++ [z] ++ b)
        by (rewrite Hsepeq, <- !app_assoc; reflexivity).
      rewrite starts_with_long; [exact Hs|].
      rewrite length_app. simpl. lia. }
    rewrite E, (IH Hc). reflexivity.
Qed.

Lemma marker_after_blank_lines :
  App.contains App.section_marker
    (LF :: LF :: removelast App.section_marker) = false.
Proof. vm_compute. reflexivity. Qed.

Lemma no_line_feed_in_marker : ~ In LF App.section_marker.
Proof.
  vm_compute. intros H. repeat destruct H as [H|H]; discriminate || exact H.
Qed.

Lemma contains_after_blank_lines (p : str) :
  App.contains App.section_marker p = false ->
  App.contains App.section_marker ([LF; LF] ++ p) = false.
Proof.
  intros H. change ([LF; LF] ++ p) with (LF :: LF :: p).
  cbn [App.contains].
  change (starts_with App.section_marker (LF :: LF :: p)) with false.
  change (starts_with App.section_marker (LF :: p)) with false.
  exact H.
Qed.

(** The sections of parts joined by the section break. *)
Lemma split_joined (parts : list str) :
  forall before,
    parts <> [] ->
    App.contains App.section_marker (before ++ hd [] parts) = false ->
    Forall (fun p => App.contains App.section_marker p = false) parts ->
    split App.section_marker (before ++ join section_break parts) =
    padded before parts.
Proof.
  induction parts as [|p parts IH]; intros before Hne Hb Hall; [congruence|].
  destruct parts as [|p2 parts].
  - simpl. now apply split_not_contains.
  - rewrite join_cons by discriminate.
    change (padded before (p :: p2 :: parts))
      with ((before ++ p ++ [LF; LF]) :: padded [LF; LF] (p2 :: parts)).
    inversion Hall as [|? ? Hp Hrest]; subst.
    inversion Hrest as [|? ? Hp2 _]; subst.
    rewrite <- (IH [LF; LF]);
      [|discriminate|now apply contains_after_blank_lines|exact Hrest].
    unfold section_break at 1.
    change (lit "--- SECTION BREAK ---") with App.section_marker.
    replace (before ++ p ++ ([LF; LF] ++ App.section_marker ++ [LF; LF])
             ++ join section_break (p2 :: parts))
      with ((before ++ p ++ [LF; LF]) ++ App.section_marker
            ++ ([LF; LF] ++ join section_break (p2 :: parts)))
      by now rewrite <- !app_assoc.
    apply split_at_first; [discriminate|].
    replace ((before ++ p ++ [LF; LF]) ++ removelast App.section_marker)
      with ((before ++ p) ++ LF :: LF :: removelast App.section_marker)
      by now rewrite <- !app_assoc.
    apply contains_app.
    + exact Hb.
    + apply no_line_feed_in_marker.
    + apply marker_after_blank_lines.
Qed.

Lemma lstrip_app_blank (ws s : str) : blank ws -> lstrip (ws ++ s) = lstrip s.
Proof.
  induction 1 as [|c ws Hc _ IH]; [reflexivity|]. simpl. now rewrite Hc.
Qed.

Lemma rstrip_app_blank (s ws : str) : blank ws -> rstrip (s ++ ws) = rstrip s.
Proof.
  intros H. unfold rstrip. rewrite rev_app_distr.
  rewrite lstrip_app_blank by now apply Forall_rev. reflexivity.
Qed.

Lemma rstrip_blank_app (ws s : str) :
  blank ws ->
  rstrip (ws ++ s) = match rstrip s with [] => [] | _ :: _ => ws ++ rstrip s end.
Proof.
  induction 1 as [|c ws Hc _ IH];
    [change ([] ++ s) with s; now destruct (rstrip s)|].
  change ((c :: ws) ++ s) with (c :: (ws ++ s)).
  rewrite rstrip_cons, IH, Hc.
  destruct (rstrip s) as [|d r]; [reflexivity|].
  now destruct ws.
Qed.

(** Whitespace around a string does not show after [strip]. *)
Lemma strip_padded (a p b : str) :
  blank a -> blank b -> strip (a ++ p ++ b) = strip p.
Proof.
  intros Ha Hb. unfold strip.
  rewrite app_assoc, (rstrip_app_blank _ Hb), (rstrip_blank_app _ Ha).
  destruct (rstrip p) as [|d r]; [reflexivity|].
  now apply lstrip_app_blank.
Qed.

Lemma padded_strip (parts : list str) :
  forall before, blank before ->
    map strip (padded before parts) = map strip parts.
Proof.
  assert (Hb : blank [LF; LF]) by (repeat constructor).
  induction parts as [|p parts IH]; intros before Hbefore; [reflexivity|].
  destruct parts as [|p2 parts].
  - simpl. f_equal.
    rewrite <- (app_nil_r p) at 1. now apply strip_padded; [|constructor].
  - change (padded before (p :: p2 :: parts))
      with ((before ++ p ++ [LF; LF]) :: padded [LF; LF] (p2 :: parts)).
    cbn [map]. rewrite (IH [LF; LF] Hb). f_equal.
    now apply strip_padded.
Qed.

Lemma padded_length (parts : list str) :
  forall before, length (padded before parts) = length parts.
Proof.
  induction parts as [|p parts IH]; intros before; [reflexivity|].
  destruct parts as [|p2 parts]; [reflexivity|].
  change (padded before (p :: p2 :: parts))
    with ((before ++ p ++ [LF; LF]) :: padded [LF; LF] (p2 :: parts)).
  change (length ((before ++ p ++ [LF; LF]) :: padded [LF; LF] (p2 :: parts)))
    with (S (length (padded [LF; LF] (p2 :: parts)))).
  now rewrite IH.
Qed.

End SectionFacts.

Section SectionProperties.

(** X21: [create_word_document] finds the parts of a summary again.  When
    the result of a [summary] worker is the join of parts none of which
    holds the marker ["--- SECTION BREAK ---"], the document has one
    section for each part, in order, and every section is its part up to
    the whitespace around it.  The test for the marker before the split
    changes nothing: the sections are the split of the content in every
    case. *)
Theorem sections_are_the_parts
  (self : worker) (parts : list str) :
  prompt_type self = lit "summary" ->
  parts <> [] ->
  Forall (fun p => App.contains App.section_marker p = false) parts ->
  App.sections_of (combine self parts) = padded [] parts /\
  length (App.sections_of (combine self parts)) = length parts /\
  map strip (App.sections_of (combine self parts)) = map strip parts /\
  forall content,
    App.sections_of content = split App.section_marker content.
Proof.
  intros Hp Hne Hall.
  assert (Hsplit : forall content,
            App.sections_of content = split App.section_marker content).
  { intros content. unfold App.sections_of.
    destruct (App.contains App.section_marker content) eqn:E; [reflexivity|].
    now rewrite split_not_contains. }
  assert (Hsec : App.sections_of (combine self parts) = padded [] parts).
  { rewrite Hsplit. unfold combine. rewrite Hp. simpl Str.eqb.
    change (if Str.eqb (lit "summary") (lit "summary")
            then join section_break parts else join [LF; LF] parts)
      with ([] ++ join section_break parts).
    apply split_joined; [exact Hne| |exact Hall].
    destruct parts as [|p parts]; [congruence|].
    now inversion Hall. }
  split; [exact Hsec|]. rewrite Hsec. split; [apply padded_length|].
  split; [|exact Hsplit]. apply padded_strip. constructor.
Qed.

Lemma sections_are_the_parts_witness :
  App.sections_of
    (combine three_parts
       [lit "OK:1"; chunk_error_msg 1 (lit "connection refused"); lit "OK:3"])
  = [lit "OK:1" ++ [LF; LF];
     [LF; LF] ++ lit "[ERROR] Processing chunk 2: connection refused"
     ++ [LF; LF];
     [LF; LF] ++ lit "OK:3"].
Proof.
  refine (proj1 (@sections_are_the_parts three_parts
            [lit "OK:1"; chunk_error_msg 1 (lit "connection refused");
             lit "OK:3"] eq_refl _ _)).
  - discriminate.
  - repeat constructor.
Defined.

End SectionProperties.

Section DocumentFacts.

Variable paragraph : Type.
Variable format_section : str -> str -> list paragraph.

Lemma errors_app (a b : list (Doc.block paragraph)) :
  Doc.errors (a ++ b) = Doc.errors a ++ Doc.errors b.
Proof.
  induction a as [|x a IH]; [reflexivity|].
  destruct x; simpl; now rewrite IH.
Qed.

Lemma section_headings_app (a b : list (Doc.block paragraph)) :
  Doc.section_headings (a ++ b) =
  Doc.section_headings a ++ Doc.section_headings b.
Proof.
  induction a as [|x a IH]; [reflexivity|].
  destruct x as [text [|[|level]]| | | |]; simpl; now rewrite IH.
Qed.

Lemma formatted_plain (l : list paragraph) :
  Doc.errors (map (@Doc.Formatted paragraph) l) = [] /\
  Doc.section_headings (map (@Doc.Formatted paragraph) l) = [].
Proof. induction l as [|p l [IH1 IH2]]; split; simpl; auto. Qed.

Lemma section_blocks_errors (filename : str) (total i : nat) (section : str) :
  Doc.errors (Doc.section_blocks format_section filename total i section) =
  if App.contains Doc.error_marker section
  then [lit "[ERROR] " ++ section] else [].
Proof.
  unfold Doc.section_blocks. rewrite !errors_app.
  destruct (1 <? total)%nat; destruct (App.contains Doc.error_marker section);
    destruct (i <? total - 1)%nat; simpl;
    rewrite ?(proj1 (formatted_plain _)); reflexivity.
Qed.

Lemma section_blocks_headings (filename : str) (total i : nat)
  (section : str) :
  Doc.section_headings
    (Doc.section_blocks format_section filename total i section) =
  if (1 <? total)%nat then [lit "Section " ++ Str.of_nat (i + 1)] else [].
Proof.
  unfold Doc.section_blocks. rewrite !section_headings_app.
  destruct (1 <? total)%nat; destruct (App.contains Doc.error_marker section);
    destruct (i <? total - 1)%nat; simpl;
    rewrite ?(proj2 (formatted_plain _)); reflexivity.
Qed.

Lemma sections_blocks_errors (filename : str) (total : nat)
  (sections : list str) :
  forall i,
    Doc.errors (Doc.sections_blocks format_section filename total i sections)
    = map (fun s => lit "[ERROR] " ++ s)
        (filter (App.contains Doc.error_marker) sections).
Proof.
  induction sections as [|s sections IH]; intros i; [reflexivity|].
  cbn [Doc.sections_blocks filter].
  rewrite errors_app, section_blocks_errors, IH.
  now destruct (App.contains Doc.error_marker s).
Qed.

Lemma sections_blocks_headings (filename : str) (total : nat)
  (sections : list str) :
  forall i,
    Doc.section_headings
      (Doc.sections_blocks format_section filename total i sections)
    = if (1 <? total)%nat
      then map (fun k => lit "Section " ++ Str.of_nat (k + 1))
             (seq i (length sections))
      else [].
Proof.
  induction sections as [|s sections IH]; intros i.
  - simpl. now destruct (1 <? total)%nat.
  - cbn [Doc.sections_blocks].
    rewrite section_headings_app, section_blocks_headings, IH.
    now destruct (1 <? total)%nat.
Qed.

End DocumentFacts.

Section MarkerFacts.

Variable sub : str.
Hypothesis sub_not_empty : sub <> [].

(** Characters that [sub] does not have, before a string: no occurrence
    more. *)
Lemma contains_after (a s : str) :
  Forall (fun c => ~ In c sub) a ->
  App.contains sub (a ++ s) = App.contains sub s.
Proof.
  induction 1 as [|c a Hc _ IH]; [reflexivity|].
  change ((c :: a) ++ s) with (c :: (a ++ s)). cbn [App.contains].
  rewrite IH. destruct sub as [|m sub']; [congruence|].
  cbn [starts_with]. destruct (N.eqb_spec m c) as [->|Hne]; [|reflexivity].
  exfalso. apply Hc. now left.
Qed.

Lemma starts_with_app_l (s b : str) :
  starts_with sub s = true -> starts_with sub (s ++ b) = true.
Proof.
  intros H. apply starts_with_skipn in H. rewrite H, <- app_assoc.
  apply starts_with_app.
Qed.

Lemma contains_app_l (s b : str) :
  App.contains sub s = true -> App.contains sub (s ++ b) = true.
Proof.
  induction s as [|c s IH]; intros H.
  - simpl in H. rewrite orb_false_r in H.
    destruct sub; [congruence|discriminate].
  - change ((c :: s) ++ b) with (c :: (s ++ b)). cbn [App.contains] in *.
    apply orb_true_iff in H as [H|H]; apply orb_true_iff.
    + left. change (c :: s ++ b) with ((c :: s) ++ b).
      now apply starts_with_app_l.
    + right. now apply IH.
Qed.

Lemma contains_before (s b : str) :
  Forall (fun c => ~ In c sub) b ->
  App.contains sub (s ++ b) = App.contains sub s.
Proof.
  intros Hb. destruct (App.contains sub s) eqn:E.
  - now apply contains_app_l.
  - destruct b as [|c y]; [now rewrite app_nil_r|].
    inversion Hb as [|? ? Hc Hy]; subst.
    apply contains_app; [exact E|exact Hc|].
    rewrite <- (app_nil_r (c :: y)), (contains_after [] Hb).
    simpl. rewrite orb_false_r. destruct sub; [congruence|reflexivity].
Qed.

End MarkerFacts.

Section DocumentProperties2.

Lemma sections_of_summary (self : worker) (parts : list str) :
  prompt_type self = lit "summary" ->
  parts <> [] ->
  Forall (fun p => App.contains App.section_marker p = false) parts ->
  App.sections_of (combine self parts) = padded [] parts.
Proof.
  intros Hp Hne Hall.
  assert (Hsplit : App.sections_of (combine self parts)
                   = split App.section_marker (combine self parts)).
  { unfold App.sections_of.
    destruct (App.contains App.section_marker (combine self parts)) eqn:E;
      [reflexivity|]. now rewrite split_not_contains. }
  rewrite Hsplit. unfold combine. rewrite Hp.
  change (if Str.eqb (lit "summary") (lit "summary")
          then join section_break parts else join [LF; LF] parts)
    with ([] ++ join section_break parts).
  apply split_joined; [exact Hne| |exact Hall].
  destruct parts as [|p parts]; [congruence|]. now inversion Hall.
Qed.

Lemma no_line_feed_in_error_marker : ~ In LF Doc.error_marker.
Proof.
  vm_compute. intros H. repeat destruct H as [H|H]; discriminate || exact H.
Qed.

Lemma padded_errors (parts : list str) :
  forall before,
    Forall (fun c => ~ In c Doc.error_marker) before ->
    length (filter (App.contains Doc.error_marker) (padded before parts)) =
    length (filter (App.contains Doc.error_marker) parts).
Proof.
  assert (Hm : Doc.error_marker <> []) by discriminate.
  assert (Hb : Forall (fun c => ~ In c Doc.error_marker) [LF; LF])
    by (repeat constructor; apply no_line_feed_in_error_marker).
  induction parts as [|p parts IH]; intros before Hbefore; [reflexivity|].
  destruct parts as [|p2 parts].
  - simpl. rewrite (contains_after Hm _ Hbefore).
    now destruct (App.contains Doc.error_marker p).
  - change (padded before (p :: p2 :: parts))
      with ((before ++ p ++ [LF; LF]) :: padded [LF; LF] (p2 :: parts)).
    specialize (IH [LF; LF] Hb).
    remember (padded [LF; LF] (p2 :: parts)) as sections.
    remember (p2 :: parts) as others.
    cbn [filter].
    rewrite (contains_after Hm _ Hbefore), (contains_before Hm _ Hb).
    destruct (App.contains Doc.error_marker p); cbn [length];
      now rewrite IH.
Qed.

(** X22: the document of a summary.  When the content is the result of a
    [summary] worker over parts none of which holds the section marker,
    the document numbers its sections ["Section 1"] to ["Section n"] when
    there are two parts or more, and has no section heading for one part.
    Every section that holds ["[ERROR]"], as the section of a failed chunk
    does, is written as one paragraph in red, ["[ERROR] "] followed by the
    section, so that the marker stands twice; there are as many of these
    as parts that hold the marker.  This holds whatever the other sections
    are formatted to. *)
Theorem summary_document_sections
  (paragraph : Type) (format_section : str -> str -> list paragraph)
  (self : worker) (parts : list str) (filename topic : str) :
  prompt_type self = lit "summary" ->
  parts <> [] ->
  Forall (fun p => App.contains App.section_marker p = false) parts ->
  let doc :=
    Doc.create_word_document format_section (combine self parts)
      filename topic in
  Doc.section_headings doc =
    (if (1 <? length parts)%nat
     then map (fun k => lit "Section " ++ Str.of_nat (k + 1))
            (seq 0 (length parts))
     else []) /\
  Doc.errors doc =
    map (fun s => lit "[ERROR] " ++ s)
      (filter (App.contains Doc.error_marker) (padded [] parts)) /\
  length (Doc.errors doc) =
    length (filter (App.contains Doc.error_marker) parts) /\
  forall k e, App.contains Doc.error_marker (chunk_error_msg k e) = true.
Proof.
  intros Hp Hne Hall doc. subst doc. unfold Doc.create_word_document.
  rewrite (sections_of_summary _ Hp Hne Hall).
  rewrite section_headings_app, errors_app.
  rewrite sections_blocks_headings, sections_blocks_errors.
  rewrite padded_length. cbn [Doc.section_headings Doc.errors app].
  split; [reflexivity|]. split; [reflexivity|]. split.
  - rewrite length_map. apply padded_errors. constructor.
  - intros k e. reflexivity.
Qed.

Lemma summary_document_sections_witness :
  Doc.section_headings
    (Doc.create_word_document (fun _ section => [section])
       (combine three_parts
          [lit "OK:1"; chunk_error_msg 1 (lit "connection refused");
           lit "OK:3"])
       (lit "notes.pdf") (lit "Cells")) =
    [lit "Section 1"; lit "Section 2"; lit "Section 3"] /\
  Doc.errors
    (Doc.create_word_document (fun _ section => [section])
       (combine three_parts
          [lit "OK:1"; chunk_error_msg 1 (lit "connection refused");
           lit "OK:3"])
       (lit "notes.pdf") (lit "Cells")) =
    [lit "[ERROR] " ++ [LF; LF]
     ++ lit "[ERROR] Processing chunk 2: connection refused" ++ [LF; LF]].
Proof.
  destruct (@summary_document_sections str (fun _ section => [section])
              three_parts
              [lit "OK:1"; chunk_error_msg 1 (lit "connection refused");
               lit "OK:3"]
              (lit "notes.pdf") (lit "Cells") eq_refl)
    as (Hh & He & _).
  - discriminate.
  - repeat constructor.
  - split; [rewrite Hh|rewrite He]; vm_compute; reflexivity.
Defined.

End DocumentProperties2.

Section PipelineProperties.

Lemma chunks_fit (text : str) (max_chunk_size : Z) :
  Forall (fits max_chunk_size) (split_text_into_chunks text max_chunk_size).
Proof.
  unfold split_text_into_chunks.
  pose proof (@sentences_inv max_chunk_size
                (sentences_of (normalize_breaks text)) ([], [])) as Hinv.
  destruct (fold_left (sentence_step max_chunk_size)
              (sentences_of (normalize_breaks text)) ([], []))
    as [chunks cur].
  destruct Hinv as [Hc Hcur].
  { split; [constructor|apply current_ok_nil]. }
  now apply flush_fits.
Qed.

(** X23: the segmenter followed by the worker.  When the chunks of a
    worker are those the segmenter makes of a text, [run] returns only
    after two events for each chunk, having sent the chunks in their order,
    one request each; every chunk sent is a stripped string that is not
    empty and is within [max_chunk_size] or without a space.  For a blank
    text nothing is sent and the result is the empty string. *)
Theorem segment_then_dispatch
  (self : worker) (text : str) (max_chunk_size : Z)
  (replies : nat -> reply) (schedule : list event) (fx : effects) :
  text_data self = TextList (split_text_into_chunks text max_chunk_size) ->
  run self replies schedule = Some fx ->
  map user_content (sent fx) =
    map TextStr (split_text_into_chunks text max_chunk_size) /\
  length schedule =
    (2 * length (split_text_into_chunks text max_chunk_size))%nat /\
  Forall (fun chunk =>
            chunk <> [] /\ strip chunk = chunk /\
            ((len chunk <= max_chunk_size)%Z \/ ~ In space chunk))
         (split_text_into_chunks text max_chunk_size) /\
  (blank text -> schedule = [] /\ sent fx = [] /\ result fx = []).
Proof.
  intros Ht Hrun.
  destruct (run_list _ _ _ Ht Hrun) as (fx0 & Hpc & ->).
  apply process_chunks_some in Hpc as (st & He & Hg & ->).
  pose proof (exec_sent_in_order _ _ _ _ He) as (k & Hk & Hq & Hr).
  pose proof (exec_events_left _ _ _ _ _ He) as Hl.
  pose proof (summaries_in_completion_order _ _ _ _ He) as Hs.
  apply gathered_true in Hg as [Hq0 Hf0].
  unfold events_left in Hl. rewrite Hq0, Hf0 in Hl. simpl in Hl.
  rewrite length_seq, Nat.add_0_r, Nat.add_0_r in Hl.
  rewrite Hq0 in Hq.
  assert (k = length (map TextStr (split_text_into_chunks text max_chunk_size))).
  { destruct (length (map TextStr (split_text_into_chunks text max_chunk_size))
              - k)%nat eqn:E; [lia|discriminate]. }
  subst k. rewrite firstn_all in Hr. rewrite length_map in Hl.
  cbn [sent result finish].
  split; [|split; [|split]].
  - rewrite Hr, map_map.
    erewrite map_ext; [apply map_id|]. intros chunk. reflexivity.
  - lia.
  - pose proof (chunks_fit text max_chunk_size) as Hfit.
    pose proof (chunks_flushed max_chunk_size text) as Hfl.
    rewrite Forall_forall in *. intros chunk Hin.
    destruct (Hfl chunk Hin) as (cur & -> & Htr).
    split; [|split].
    + intros E. rewrite E in Htr. discriminate.
    + apply strip_strip.
    + apply (Hfit _ Hin).
  - intros Hb.
    assert (Hnil : split_text_into_chunks text max_chunk_size = []).
    { unfold split_text_into_chunks.
      assert (Hb' : blank (normalize_breaks text))
        by (unfold normalize_breaks; now do 2 apply blank_replace_space).
      now rewrite (blank_no_sentence Hb'). }
    rewrite Hnil in *. simpl in Hl, Hr.
    destruct schedule as [|ev schedule]; [|simpl in Hl; lia].
    simpl in Hs. split; [reflexivity|]. split; [exact Hr|].
    rewrite Hs. apply combine_nil.
Qed.

Lemma segment_then_dispatch_witness :
  option_map (fun fx => map user_content (sent fx))
    (run {| text_data :=
              TextList (split_text_into_chunks
                          (lit "Sentence one. Sentence two. Third") 25);
            model := lit "gemma3:4b-it-qat";
            prompt_type := lit "summary";
            custom_prompt := [];
            answer_length := [];
            is_chunked := true |}
         two_replies [Enter; Enter; Answer 1; Answer 0]) =
  Some [TextStr (lit "Sentence one."); TextStr (lit "Sentence two. Third.")].
Proof.
  pose proof (@segment_then_dispatch
                {| text_data :=
                     TextList (split_text_into_chunks
                                 (lit "Sentence one. Sentence two. Third") 25);
                   model := lit "gemma3:4b-it-qat";
                   prompt_type := lit "summary";
                   custom_prompt := [];
                   answer_length := [];
                   is_chunked := true |}
                (lit "Sentence one. Sentence two. Third") 25
                two_replies [Enter; Enter; Answer 1; Answer 0]) as H.
  destruct (run _ two_replies [Enter; Enter; Answer 1; Answer 0])
    as [fx|] eqn:E; [|vm_compute in E; discriminate E].
  destruct (H fx eq_refl eq_refl) as (Hsent & _).
  simpl. rewrite Hsent. vm_compute. reflexivity.
Defined.

End PipelineProperties.
